(** * Chess rules engine of [chess_game.py]: board, attack detection,
      pseudo-legal and legal move generation.

    The Python methods of [Board] (and the board part of
    [ChessGame._make_move]) are embedded as Rocq functions.  Grid reads and
    writes can raise [IndexError] in Python and the ray scans are [while]
    loops, so every function returns a [result]: a value, an index error,
    or exhausted fuel. *)

From Stdlib Require Import ZArith List Bool Lia.
Import ListNotations.
Local Open Scope Z_scope.

(* ================================================================= *)
(** ** Outcomes and the error monad *)

Inductive result (A : Type) : Type :=
| Ok (a : A)
| IndexError
| OutOfFuel.

Arguments Ok {A} a.
Arguments IndexError {A}.
Arguments OutOfFuel {A}.

Definition bind {A B : Type} (m : result A) (k : A -> result B) : result B :=
  match m with
  | Ok a => k a
  | IndexError => IndexError
  | OutOfFuel => OutOfFuel
  end.

Notation "x <- m ;; k" := (bind m (fun x => k))
  (at level 61, m at next level, right associativity).

(** [for x in xs: moves.extend(f x)] *)
Fixpoint collect {A B : Type} (f : A -> result (list B)) (xs : list A)
  : result (list B) :=
  match xs with
  | [] => Ok []
  | x :: xs' =>
      ys <- f x ;;
      zs <- collect f xs' ;;
      Ok (ys ++ zs)
  end.

(** [for x in xs: if f x: return True] followed by falling out of the loop *)
Fixpoint any_of {A : Type} (f : A -> result bool) (xs : list A) : result bool :=
  match xs with
  | [] => Ok false
  | x :: xs' =>
      hit <- f x ;;
      if hit then Ok true else any_of f xs'
  end.

(** [for x in xs: if ...: return v] followed by [return None] *)
Fixpoint first_of {A B : Type} (f : A -> result (option B)) (xs : list A)
  : result (option B) :=
  match xs with
  | [] => Ok None
  | x :: xs' =>
      found <- f x ;;
      match found with
      | Some v => Ok (Some v)
      | None => first_of f xs'
      end
  end.

(** [for x in xs: s = f s x] on a mutable object [s] *)
Fixpoint for_state {S A : Type} (f : S -> A -> result S) (s : S) (xs : list A)
  : result S :=
  match xs with
  | [] => Ok s
  | x :: xs' => s' <- f s x ;; for_state f s' xs'
  end.

Definition range (n : Z) : list Z := map Z.of_nat (seq 0 (Z.to_nat n)).

Fixpoint enumerate_from {A : Type} (i : Z) (l : list A) : list (Z * A) :=
  match l with
  | [] => []
  | a :: l' => (i, a) :: enumerate_from (i + 1) l'
  end.

Definition enumerate {A : Type} (l : list A) : list (Z * A) := enumerate_from 0 l.

(* ================================================================= *)
(** ** Data model *)

Definition ROWS : Z := 8.
Definition COLS : Z := 8.

Inductive Color : Type := WHITE | BLACK.

Inductive Kind : Type := King | Queen | Rook | Bishop | Knight | Pawn.

Record Piece : Type := mkPiece { color : Color; kind : Kind }.

Definition Square : Type := (Z * Z)%type.
Definition Move : Type := (Square * Square)%type.

Definition Grid : Type := list (list (option Piece)).

Record Board : Type := mkBoard { grid : Grid; to_move : Color }.

Definition color_eqb (a b : Color) : bool :=
  match a, b with
  | WHITE, WHITE | BLACK, BLACK => true
  | _, _ => false
  end.

Definition kind_eqb (a b : Kind) : bool :=
  match a, b with
  | King, King | Queen, Queen | Rook, Rook
  | Bishop, Bishop | Knight, Knight | Pawn, Pawn => true
  | _, _ => false
  end.

(** [WHITE if color == BLACK else BLACK] *)
Definition other (col : Color) : Color :=
  if color_eqb col BLACK then WHITE else BLACK.

(* ================================================================= *)
(** ** List indexing

    [index] and [store] succeed exactly on indices [0 .. len-1].  Python
    raises [IndexError] above that range and below [-len]; for
    [-len .. -1] it wraps around.  The model reports the wrap as an error
    too, so an [Ok] outcome never relies on it. *)

Definition index {A : Type} (l : list A) (i : Z) : result A :=
  if 0 <=? i then
    match nth_error l (Z.to_nat i) with
    | Some a => Ok a
    | None => IndexError
    end
  else IndexError.

Fixpoint set_nth {A : Type} (l : list A) (n : nat) (v : A) : result (list A) :=
  match l, n with
  | [], _ => IndexError
  | _ :: t, O => Ok (v :: t)
  | h :: t, S n' => t' <- set_nth t n' v ;; Ok (h :: t')
  end.

Definition store {A : Type} (l : list A) (i : Z) (v : A) : result (list A) :=
  if 0 <=? i then set_nth l (Z.to_nat i) v else IndexError.

(** [g[r][c]] *)
Definition grid_get (g : Grid) (r c : Z) : result (option Piece) :=
  row <- index g r ;; index row c.

(** [g[r][c] = v] *)
Definition grid_set (g : Grid) (r c : Z) (v : option Piece) : result Grid :=
  row <- index g r ;;
  row' <- store row c v ;;
  store g r row'.

(* ================================================================= *)
(** ** class Board *)

(** [Board._setup] *)
Definition back : list Kind :=
  [Rook; Knight; Bishop; Queen; King; Bishop; Knight; Rook].

Definition _setup (b : Board) : result Board :=
  g1 <- for_state (fun g ck =>
          g' <- grid_set g 0 (fst ck) (Some (mkPiece BLACK (snd ck))) ;;
          grid_set g' 1 (fst ck) (Some (mkPiece BLACK Pawn)))
        (grid b) (enumerate back) ;;
  g2 <- for_state (fun g ck =>
          g' <- grid_set g 7 (fst ck) (Some (mkPiece WHITE (snd ck))) ;;
          grid_set g' 6 (fst ck) (Some (mkPiece WHITE Pawn)))
        g1 (enumerate back) ;;
  Ok (mkBoard g2 (to_move b)).

(** [Board.__init__] *)
Definition Board_init : result Board :=
  _setup (mkBoard (repeat (repeat None (Z.to_nat COLS)) (Z.to_nat ROWS)) WHITE).

(** [Board.copy] *)
Definition copy (b : Board) : Board :=
  mkBoard
    (map (fun row =>
            map (fun p => match p with
                          | None => None
                          | Some q => Some (mkPiece (color q) (kind q))
                          end) row)
         (grid b))
    (to_move b).

(** [Board.inside] *)
Definition inside (r c : Z) : bool :=
  (0 <=? r) && (r <? ROWS) && ((0 <=? c) && (c <? COLS)).

(** [Board.king_position] *)
Definition king_position (b : Board) (col : Color) : result (option Square) :=
  first_of (fun r =>
    first_of (fun c =>
      p <- grid_get (grid b) r c ;;
      match p with
      | Some q =>
          if color_eqb (color q) col && kind_eqb (kind q) King
          then Ok (Some (r, c)) else Ok None
      | None => Ok None
      end) (range COLS)) (range ROWS).

(** The five loops of [Board.is_square_attacked], in source order. *)

Definition knight_deltas : list (Z * Z) :=
  [(-2, -1); (-2, 1); (-1, -2); (-1, 2); (1, -2); (1, 2); (2, -1); (2, 1)].

Definition straight_deltas : list (Z * Z) := [(-1, 0); (1, 0); (0, -1); (0, 1)].

Definition diagonal_deltas : list (Z * Z) := [(-1, -1); (-1, 1); (1, -1); (1, 1)].

(** [p and p.color == by_color and p.kind == k] *)
Definition is_piece (p : option Piece) (by_color : Color) (k : Kind) : bool :=
  match p with
  | Some q => color_eqb (color q) by_color && kind_eqb (kind q) k
  | None => false
  end.

Definition attacked_by_knight (b : Board) (r c : Z) (by_color : Color)
  : result bool :=
  any_of (fun d =>
    let rr := r + fst d in
    let cc := c + snd d in
    if inside rr cc then
      p <- grid_get (grid b) rr cc ;;
      Ok (is_piece p by_color Knight)
    else Ok false) knight_deltas.

Definition attacked_by_pawn (b : Board) (r c : Z) (by_color : Color)
  : result bool :=
  let dir := if color_eqb by_color WHITE then -1 else 1 in
  any_of (fun dc =>
    let rr := r + dir in
    let cc := c + dc in
    if inside rr cc then
      p <- grid_get (grid b) rr cc ;;
      Ok (is_piece p by_color Pawn)
    else Ok false) [-1; 1].

Definition attacked_by_king (b : Board) (r c : Z) (by_color : Color)
  : result bool :=
  any_of (fun dr =>
    any_of (fun dc =>
      if (dr =? 0) && (dc =? 0) then Ok false
      else
        let rr := r + dr in
        let cc := c + dc in
        if inside rr cc then
          p <- grid_get (grid b) rr cc ;;
          Ok (is_piece p by_color King)
        else Ok false) [-1; 0; 1]) [-1; 0; 1].

(** One [while self.inside(rr, cc)] scan of the sliding loops: [Ok true]
    is the [return True], [Ok false] the [break] or the end of the loop. *)
Fixpoint attack_scan (fuel : nat) (b : Board) (rr cc dr dc : Z)
    (by_color : Color) (k1 k2 : Kind) : result bool :=
  match fuel with
  | O => OutOfFuel
  | S fuel' =>
      if inside rr cc then
        p <- grid_get (grid b) rr cc ;;
        match p with
        | Some q =>
            Ok (color_eqb (color q) by_color
                && (kind_eqb (kind q) k1 || kind_eqb (kind q) k2))
        | None => attack_scan fuel' b (rr + dr) (cc + dc) dr dc by_color k1 k2
        end
      else Ok false
  end.

(** Iterations granted to a [while] scan; a walk in a fixed direction
    leaves the 8x8 board well before that. *)
Definition scan_fuel : nat := Z.to_nat (ROWS + COLS).

Definition attacked_on_straight (b : Board) (r c : Z) (by_color : Color)
  : result bool :=
  any_of (fun d =>
    attack_scan scan_fuel b (r + fst d) (c + snd d) (fst d) (snd d)
                by_color Rook Queen) straight_deltas.

Definition attacked_on_diagonal (b : Board) (r c : Z) (by_color : Color)
  : result bool :=
  any_of (fun d =>
    attack_scan scan_fuel b (r + fst d) (c + snd d) (fst d) (snd d)
                by_color Bishop Queen) diagonal_deltas.

(** [Board.is_square_attacked] *)
Definition is_square_attacked (b : Board) (r c : Z) (by_color : Color)
  : result bool :=
  a <- attacked_by_knight b r c by_color ;;
  if a then Ok true else
  a <- attacked_by_pawn b r c by_color ;;
  if a then Ok true else
  a <- attacked_by_king b r c by_color ;;
  if a then Ok true else
  a <- attacked_on_straight b r c by_color ;;
  if a then Ok true else
  a <- attacked_on_diagonal b r c by_color ;;
  if a then Ok true else
  Ok false.

(** [Board.is_in_check] *)
Definition is_in_check (b : Board) (col : Color) : result bool :=
  kpos <- king_position b col ;;
  match kpos with
  | None => Ok false
  | Some (kr, kc) => is_square_attacked b kr kc (other col)
  end.

(** [t is None or t.color != color] *)
Definition free_for (t : option Piece) (col : Color) : bool :=
  match t with
  | None => true
  | Some q => negb (color_eqb (color q) col)
  end.

(** [target and target.color != color] *)
Definition enemy_of (t : option Piece) (col : Color) : bool :=
  match t with
  | None => false
  | Some q => negb (color_eqb (color q) col)
  end.

Definition is_none (t : option Piece) : bool :=
  match t with None => true | Some _ => false end.

(** [Board._pawn_moves] *)
Definition _pawn_moves (b : Board) (r c : Z) (col : Color) : result (list Move) :=
  let dir := if color_eqb col WHITE then -1 else 1 in
  let start_row := if color_eqb col WHITE then 6 else 1 in
  let nr := r + dir in
  forward <-
    (if inside nr c then
       t <- grid_get (grid b) nr c ;;
       if is_none t then
         let nr2 := r + 2 * dir in
         if r =? start_row then
           t2 <- grid_get (grid b) nr2 c ;;
           if is_none t2
           then Ok [((r, c), (nr, c)); ((r, c), (nr2, c))]
           else Ok [((r, c), (nr, c))]
         else Ok [((r, c), (nr, c))]
       else Ok []
     else Ok []) ;;
  captures <-
    collect (fun dc =>
      let nr := r + dir in
      let nc := c + dc in
      if inside nr nc then
        target <- grid_get (grid b) nr nc ;;
        if enemy_of target col then Ok [((r, c), (nr, nc))] else Ok []
      else Ok []) [-1; 1] ;;
  Ok (forward ++ captures).

(** [Board._knight_moves] *)
Definition _knight_moves (b : Board) (r c : Z) (col : Color) : result (list Move) :=
  collect (fun d =>
    let nr := r + fst d in
    let nc := c + snd d in
    if inside nr nc then
      t <- grid_get (grid b) nr nc ;;
      if free_for t col then Ok [((r, c), (nr, nc))] else Ok []
    else Ok []) knight_deltas.

(** The [while self.inside(nr, nc)] loop of [Board._ray_moves] for one
    direction, returning the moves it appends. *)
Fixpoint ray_scan (fuel : nat) (b : Board) (r c : Z) (col : Color)
    (nr nc dr dc : Z) : result (list Move) :=
  match fuel with
  | O => OutOfFuel
  | S fuel' =>
      if inside nr nc then
        t <- grid_get (grid b) nr nc ;;
        match t with
        | None =>
            rest <- ray_scan fuel' b r c col (nr + dr) (nc + dc) dr dc ;;
            Ok (((r, c), (nr, nc)) :: rest)
        | Some q =>
            if negb (color_eqb (color q) col)
            then Ok [((r, c), (nr, nc))]
            else Ok []
        end
      else Ok []
  end.

(** [Board._ray_moves] *)
Definition _ray_moves (b : Board) (r c : Z) (col : Color)
    (deltas : list (Z * Z)) : result (list Move) :=
  collect (fun d =>
    ray_scan scan_fuel b r c col (r + fst d) (c + snd d) (fst d) (snd d)) deltas.

Definition _bishop_moves (b : Board) (r c : Z) (col : Color) : result (list Move) :=
  _ray_moves b r c col [(-1, -1); (-1, 1); (1, -1); (1, 1)].

Definition _rook_moves (b : Board) (r c : Z) (col : Color) : result (list Move) :=
  _ray_moves b r c col [(-1, 0); (1, 0); (0, -1); (0, 1)].

Definition _queen_moves (b : Board) (r c : Z) (col : Color) : result (list Move) :=
  _ray_moves b r c col
    [(-1, -1); (-1, 1); (1, -1); (1, 1); (-1, 0); (1, 0); (0, -1); (0, 1)].

(** [Board._king_moves] *)
Definition _king_moves (b : Board) (r c : Z) (col : Color) : result (list Move) :=
  collect (fun dr =>
    collect (fun dc =>
      if (dr =? 0) && (dc =? 0) then Ok []
      else
        let nr := r + dr in
        let nc := c + dc in
        if inside nr nc then
          t <- grid_get (grid b) nr nc ;;
          if free_for t col then
            a <- is_square_attacked b nr nc (other col) ;;
            if negb a then Ok [((r, c), (nr, nc))] else Ok []
          else Ok []
        else Ok []) [-1; 0; 1]) [-1; 0; 1].

(** The [if / elif] chain on [p.kind] of [generate_pseudo_legal_moves]. *)
Definition piece_moves (b : Board) (r c : Z) (col : Color) (k : Kind)
  : result (list Move) :=
  match k with
  | Pawn => _pawn_moves b r c col
  | Knight => _knight_moves b r c col
  | Bishop => _bishop_moves b r c col
  | Rook => _rook_moves b r c col
  | Queen => _queen_moves b r c col
  | King => _king_moves b r c col
  end.

(** [Board.generate_pseudo_legal_moves] *)
Definition generate_pseudo_legal_moves (b : Board) (col : Color)
  : result (list Move) :=
  collect (fun r =>
    collect (fun c =>
      p <- grid_get (grid b) r c ;;
      match p with
      | None => Ok []
      | Some q =>
          if negb (color_eqb (color q) col) then Ok []
          else piece_moves b r c col (kind q)
      end) (range COLS)) (range ROWS).

(** [Board._make_move_no_checks] *)
Definition _make_move_no_checks (b : Board) (src dst : Square) : result Board :=
  let '(sr, sc) := src in
  let '(dr, dc) := dst in
  p <- grid_get (grid b) sr sc ;;
  g1 <- grid_set (grid b) dr dc p ;;
  g2 <- grid_set g1 sr sc None ;;
  Ok (mkBoard g2 (to_move b)).

(** The promotion test shared by [generate_legal_moves] and
    [ChessGame._make_move]: [piece and piece.kind == "P"] and the piece
    reaches row 0 as White or row 7 as Black. *)
Definition promotes (piece : option Piece) (dr : Z) : bool :=
  match piece with
  | Some q =>
      kind_eqb (kind q) Pawn
      && ((color_eqb (color q) WHITE && (dr =? 0))
          || (color_eqb (color q) BLACK && (dr =? 7)))
  | None => false
  end.

(** The board [b2] on which the body of the loop of
    [generate_legal_moves] tests for check. *)
Definition simulate (b : Board) (src dst : Square) : result Board :=
  b2 <- _make_move_no_checks (copy b) src dst ;;
  piece <- grid_get (grid b) (fst src) (snd src) ;;
  match piece with
  | Some q =>
      if promotes piece (fst dst) then
        g <- grid_set (grid b2) (fst dst) (snd dst)
                      (Some (mkPiece (color q) Queen)) ;;
        Ok (mkBoard g (to_move b2))
      else Ok b2
  | None => Ok b2
  end.

(** [Board.generate_legal_moves] *)
Definition generate_legal_moves (b : Board) (col : Color) : result (list Move) :=
  pseudo <- generate_pseudo_legal_moves b col ;;
  collect (fun m =>
    b2 <- simulate b (fst m) (snd m) ;;
    chk <- is_in_check b2 col ;;
    if negb chk then Ok [m] else Ok []) pseudo.

(* ================================================================= *)
(** ** class ChessGame: the part of [_make_move] acting on [self.board] *)

Definition _make_move (b : Board) (src dst : Square) : result Board :=
  piece <- grid_get (grid b) (fst src) (snd src) ;;
  b1 <- _make_move_no_checks b src dst ;;
  b2 <- (match piece with
         | Some q =>
             if promotes piece (fst dst) then
               g <- grid_set (grid b1) (fst dst) (snd dst)
                             (Some (mkPiece (color q) Queen)) ;;
               Ok (mkBoard g (to_move b1))
             else Ok b1
         | None => Ok b1
         end) ;;
  Ok (mkBoard (grid b2) (if color_eqb (to_move b2) WHITE then BLACK else WHITE)).

(** Window geometry. *)
Definition WIDTH : Z := 640.
Definition HEIGHT : Z := 640.
Definition SQUARE_SIZE : Z := WIDTH / COLS.

(** The attributes of [ChessGame] that its logic reads and writes.  The
    pygame handles ([screen], [clock], the fonts) hold no game state. *)
Record ChessGame : Type := mkGame {
  board : Board;
  selected : option Square;
  legal_for_selected : list Square;
  running : bool
}.

(** [ChessGame.__init__] *)
Definition ChessGame_init : result ChessGame :=
  b <- Board_init ;; Ok (mkGame b None [] true).

(** [ChessGame.reset] *)
Definition reset (g : ChessGame) : result ChessGame :=
  b <- Board_init ;; Ok (mkGame b None [] (running g)).

(** Equality of [(row, col)] tuples. *)
Definition square_eqb (a b : Square) : bool :=
  (fst a =? fst b) && (snd a =? snd b).

(** [[dst for src, dst in legal if src == (r, c)]] *)
Definition dsts_from (legal : list Move) (sq : Square) : list Square :=
  map snd (filter (fun m => square_eqb (fst m) sq) legal).

(** [p and p.color == WHITE] *)
Definition is_white (p : option Piece) : bool :=
  match p with
  | Some q => color_eqb (color q) WHITE
  | None => false
  end.

(** [ChessGame._handle_click] *)
Definition _handle_click (g : ChessGame) (pos : Z * Z) : result ChessGame :=
  if negb (color_eqb (to_move (board g)) WHITE) then Ok g
  else
    let x := fst pos in
    let y := snd pos in
    let c := x / SQUARE_SIZE in
    let r := y / SQUARE_SIZE in
    if negb ((0 <=? r) && (r <? ROWS) && ((0 <=? c) && (c <? COLS))) then Ok g
    else
      match selected g with
      | None =>
          p <- grid_get (grid (board g)) r c ;;
          if is_white p then
            legal <- generate_legal_moves (board g) WHITE ;;
            Ok (mkGame (board g) (Some (r, c)) (dsts_from legal (r, c))
                       (running g))
          else Ok g
      | Some sel =>
          if existsb (square_eqb (r, c)) (legal_for_selected g) then
            b' <- _make_move (board g) sel (r, c) ;;
            Ok (mkGame b' None [] (running g))
          else
            p <- grid_get (grid (board g)) r c ;;
            if is_white p then
              legal <- generate_legal_moves (board g) WHITE ;;
              Ok (mkGame (board g) (Some (r, c)) (dsts_from legal (r, c))
                         (running g))
            else Ok (mkGame (board g) None [] (running g))
      end.

(** [random.choice(seq)], the random draw being [rnd]: an element of a
    non-empty sequence, [IndexError] on an empty one. *)
Definition choice {A : Type} (rnd : nat) (l : list A) : result A :=
  match nth_error l (rnd mod length l) with
  | Some a => Ok a
  | None => IndexError
  end.

(** [ChessGame._ai_move_if_needed] *)
Definition _ai_move_if_needed (rnd : nat) (g : ChessGame) : result ChessGame :=
  if negb (color_eqb (to_move (board g)) BLACK) then Ok g
  else
    legal <- generate_legal_moves (board g) BLACK ;;
    match legal with
    | [] => Ok g
    | _ :: _ =>
        captures <-
          collect (fun m =>
            t <- grid_get (grid (board g)) (fst (snd m)) (snd (snd m)) ;;
            if negb (is_none t) then Ok [m] else Ok []) legal ;;
        move <- choice rnd (match captures with
                            | [] => legal
                            | _ :: _ => captures
                            end) ;;
        b' <- _make_move (board g) (fst move) (snd move) ;;
        Ok (mkGame b' (selected g) (legal_for_selected g) (running g))
    end.

(** The pygame events that [_handle_events] tells apart. *)
Inductive Key : Type := K_ESCAPE | K_r | K_other.

Inductive Event : Type :=
| QUIT
| KEYDOWN (key : Key)
| MOUSEBUTTONDOWN (button : Z) (pos : Z * Z)
| OTHER_EVENT.

(** [ChessGame._handle_events], on the events of [pygame.event.get()] *)
Definition _handle_events (g : ChessGame) (events : list Event)
  : result ChessGame :=
  for_state (fun g ev =>
    match ev with
    | QUIT =>
        Ok (mkGame (board g) (selected g) (legal_for_selected g) false)
    | KEYDOWN K_ESCAPE =>
        Ok (mkGame (board g) (selected g) (legal_for_selected g) false)
    | KEYDOWN K_r => reset g
    | KEYDOWN K_other => Ok g
    | MOUSEBUTTONDOWN button pos =>
        if button =? 1 then _handle_click g pos else Ok g
    | OTHER_EVENT => Ok g
    end) g events.

(** The loop of [ChessGame.run], one element of [frames] per iteration:
    the events polled and the random draw of that iteration.  Drawing
    changes nothing in the game. *)
Fixpoint run (g : ChessGame) (frames : list (list Event * nat))
  : result ChessGame :=
  match frames with
  | [] => Ok g
  | (events, rnd) :: rest =>
      if running g then
        g1 <- _handle_events g events ;;
        g2 <- _ai_move_if_needed rnd g1 ;;
        run g2 rest
      else Ok g
  end.

(* ================================================================= *)
(** * Vocabulary of the statements and concrete positions *)

(** [returns m P]: the computation [m] ends normally with a value
    satisfying [P]. *)
Definition returns {A : Type} (m : result A) (P : A -> Prop) : Prop :=
  exists a, m = Ok a /\ P a.

Definition wf_grid (g : Grid) : Prop :=
  length g = 8%nat /\ Forall (fun row => length row = 8%nat) g.

Definition wf (b : Board) : Prop := wf_grid (grid b).

(** The content of a square, [None] for an empty square. *)
Definition cell (g : Grid) (r c : Z) : option Piece :=
  match grid_get g r c with
  | Ok p => p
  | _ => None
  end.

Definition empty_grid : Grid := repeat (repeat None 8%nat) 8%nat.

(** [put g r c p] is [g] with piece [p] written on square [(r, c)]. *)
Definition put (g : Grid) (r c : Z) (p : Piece) : Grid :=
  match grid_set g r c (Some p) with
  | Ok g' => g'
  | _ => g
  end.

Definition start_board : Board :=
  match Board_init with
  | Ok b => b
  | _ => mkBoard empty_grid WHITE
  end.

Ltac prove_wf := split; [reflexivity | repeat constructor].

(** The square [k] steps of [(dr, dc)] away from [(r, c)]. *)
Definition step_row (r dr : Z) (k : nat) : Z := r + Z.of_nat k * dr.

(** The first [k] squares of the walk starting on [(r, c)] are on the
    board and empty. *)
Definition clear_run (g : Grid) (r c dr dc : Z) (k : nat) : Prop :=
  forall j : nat, (j < k)%nat ->
    inside (step_row r dr j) (step_row c dc j) = true /\
    cell g (step_row r dr j) (step_row c dc j) = None.

(** Whether the walk has left the board by the time the fuel is spent. *)
Definition fuel_covers (fuel : nat) (r c dr dc : Z) : Prop :=
  fuel <> 0%nat /\
  forall j : nat, (fuel <= S j)%nat ->
    inside (step_row r dr j) (step_row c dc j) = false.

(** What the first piece met by a walk is. *)
Definition first_piece (g : Grid) (r c dr dc : Z) (k : nat) (q : Piece) : Prop :=
  clear_run g r c dr dc k /\
  inside (step_row r dr k) (step_row c dc k) = true /\
  cell g (step_row r dr k) (step_row c dc k) = Some q.

(** The destinations a walk offers to a piece of colour [col]: [k] empty
    squares, or the first occupied square when it holds an opposing
    piece. *)
Definition ray_reaches (g : Grid) (col : Color) (r c dr dc : Z) (k : nat) : Prop :=
  clear_run g r c dr dc k /\
  inside (step_row r dr k) (step_row c dc k) = true /\
  free_for (cell g (step_row r dr k) (step_row c dc k)) col = true.

(** The eight directions of the sliding pieces. *)
Definition queen_deltas : list (Z * Z) :=
  [(-1, -1); (-1, 1); (1, -1); (1, 1); (-1, 0); (1, 0); (0, -1); (0, 1)].

(** The row offset at which the pawn loop of [is_square_attacked] looks
    for an attacker. *)
Definition pawn_probe_dir (by_color : Color) : Z :=
  if color_eqb by_color WHITE then -1 else 1.

(** The direction in which pawns of a colour advance, and their home row. *)
Definition pawn_dir (col : Color) : Z := if color_eqb col WHITE then -1 else 1.

Definition pawn_start_row (col : Color) : Z := if color_eqb col WHITE then 6 else 1.

(** A piece of colour [col] standing on [(r, c)] generates move [m]. *)
Definition generated_by (b : Board) (col : Color) (r c : Z) (q : Piece)
    (m : Move) : Prop :=
  inside r c = true /\ cell (grid b) r c = Some q /\ color q = col /\
  exists l, piece_moves b r c col (kind q) = Ok l /\ In m l.

(** The piece found on [dst] after the simulated move of a piece [p]. *)
Definition landed (p : option Piece) (dr : Z) : option Piece :=
  match p with
  | Some q => if promotes p dr then Some (mkPiece (color q) Queen) else Some q
  | None => None
  end.

Definition moved_kind (g : Grid) (m : Move) : option Kind :=
  match cell g (fst (fst m)) (snd (fst m)) with
  | Some q => Some (kind q)
  | None => None
  end.

(** A pawn move staying on its column and advancing [n] rows. *)
Definition is_pawn_push (g : Grid) (n : Z) (m : Move) : bool :=
  match moved_kind g m with
  | Some Pawn =>
      (snd (fst m) =? snd (snd m)) && (Z.abs (fst (snd m) - fst (fst m)) =? n)
  | _ => false
  end.

Definition is_knight_move (g : Grid) (m : Move) : bool :=
  match moved_kind g m with
  | Some Knight => true
  | _ => false
  end.

(** No square of the board holds a king of colour [col]. *)
Definition no_king (g : Grid) (col : Color) : Prop :=
  forall r c, inside r c = true -> is_piece (cell g r c) col King = false.

(** A position without kings: a white pawn facing a black knight. *)
Definition kingless_board : Board :=
  mkBoard (put (put empty_grid 6 4 (mkPiece WHITE Pawn)) 5 3 (mkPiece BLACK Knight))
          WHITE.

(** The row on which a pawn of colour [col] promotes. *)
Definition last_row (col : Color) : Z := if color_eqb col WHITE then 0 else 7.

(** A white pawn one step from promotion, with both kings on the board. *)
Definition promotion_board : Board :=
  mkBoard (put (put (put empty_grid 1 0 (mkPiece WHITE Pawn))
                    7 4 (mkPiece WHITE King))
               0 4 (mkPiece BLACK King))
          WHITE.

(** [(nr, nc)] is one of the 8 neighbours of [(r, c)]. *)
Definition adjacent (r c nr nc : Z) : Prop :=
  Z.abs (nr - r) <= 1 /\ Z.abs (nc - c) <= 1 /\ (nr, nc) <> (r, c).

(** A white king next to a black rook that a second black rook defends,
    with an undefended black knight on its other side. *)
Definition king_board : Board :=
  mkBoard (put (put (put (put empty_grid 4 4 (mkPiece WHITE King))
                         4 5 (mkPiece BLACK Rook))
                    4 7 (mkPiece BLACK Rook))
               5 3 (mkPiece BLACK Knight))
          WHITE.

(** A white king with a black pawn two rows up, one column to the left,
    and a black pawn on its own row, two columns to the left. *)
Definition pawn_guard_board : Board :=
  mkBoard (put (put (put empty_grid 4 4 (mkPiece WHITE King))
                    2 3 (mkPiece BLACK Pawn))
               4 2 (mkPiece BLACK Pawn))
          WHITE.

(** The squares strictly between [(r, c)] and the square [k] steps away
    in direction [(dr, dc)] are empty. *)
Definition open_line (g : Grid) (r c dr dc k : Z) : Prop :=
  forall j, 1 <= j < k -> cell g (r + j * dr) (c + j * dc) = None.

(** The direction sets passed to [_ray_moves] by [_bishop_moves],
    [_rook_moves] and [_queen_moves]. *)
Definition slider_deltas (k : Kind) : list (Z * Z) :=
  match k with
  | Bishop => [(-1, -1); (-1, 1); (1, -1); (1, 1)]
  | Rook => [(-1, 0); (1, 0); (0, -1); (0, 1)]
  | Queen => [(-1, -1); (-1, 1); (1, -1); (1, 1); (-1, 0); (1, 0); (0, -1); (0, 1)]
  | _ => []
  end.

Definition is_slider (k : Kind) : Prop := k = Rook \/ k = Bishop \/ k = Queen.

(** A white rook hemmed in by its own pawn on one side and facing a
    black knight, with a second black piece behind it, on another. *)
Definition rook_board : Board :=
  mkBoard (put (put (put (put empty_grid 4 4 (mkPiece WHITE Rook))
                         4 2 (mkPiece WHITE Pawn))
                    4 6 (mkPiece BLACK Knight))
               4 7 (mkPiece BLACK Rook))
          WHITE.



(** Row-major order on squares. *)
Definition before (r' c' r c : Z) : Prop := r' < r \/ (r' = r /\ c' < c).

(** Two grids agree everywhere except, possibly, on [(r, c)]. *)
Definition agree_off (g g' : Grid) (r c : Z) : Prop :=
  forall r' c', inside r' c' = true -> (r', c') <> (r, c) ->
    cell g' r' c' = cell g r' c'.

(** Whether the loop body of [generate_legal_moves] keeps move [m]. *)
Definition keeps (b : Board) (col : Color) (m : Move) : bool :=
  match (b2 <- simulate b (fst m) (snd m) ;; is_in_check b2 col) with
  | Ok false => true
  | _ => false
  end.

(** The selection shown to the player matches the board: nothing is
    selected and no destination is kept, or it is White's turn and the
    destinations kept are the legal ones of the selected square. *)
Definition selection_ok (g : ChessGame) : Prop :=
  match selected g with
  | None => legal_for_selected g = []
  | Some s =>
      to_move (board g) = WHITE /\
      exists legal,
        generate_legal_moves (board g) WHITE = Ok legal /\
        legal_for_selected g = dsts_from legal s
  end.

Definition game_ok (g : ChessGame) : Prop := wf (board g) /\ selection_ok g.

(** [g'] results from [g] by a legal move of colour [col] from [src]. *)
Definition played (col : Color) (g g' : ChessGame) (src dst : Square) : Prop :=
  to_move (board g) = col /\
  (exists legal, generate_legal_moves (board g) col = Ok legal /\
                 In (src, dst) legal) /\
  _make_move (board g) src dst = Ok (board g') /\
  to_move (board g') = other col /\
  is_in_check (board g') col = Ok false.

Definition fresh_game : ChessGame := mkGame start_board None [] true.

Definition black_to_move_game : ChessGame :=
  mkGame (mkBoard (grid start_board) BLACK) None [] true.

(** The events that stop the game. *)
Definition is_quit (ev : Event) : bool :=
  match ev with
  | QUIT | KEYDOWN K_ESCAPE => true
  | _ => false
  end.

(** Black to move and stalemated: the black king in the corner, hemmed
    in by the white queen. *)
Definition stalemate_game : ChessGame :=
  mkGame
    (mkBoard (put (put (put empty_grid 0 0 (mkPiece BLACK King))
                       1 2 (mkPiece WHITE Queen))
                  7 7 (mkPiece WHITE King))
             BLACK)
    None [] true.

(* ================================================================= *)
(** * Reasoning principles *)

Lemma returns_ok {A : Type} (a : A) (P : A -> Prop) : P a -> returns (Ok a) P.
Proof. intros H. exists a. split; [reflexivity | exact H]. Qed.

Lemma returns_bind {A B : Type} (m : result A) (k : A -> result B)
    (P : A -> Prop) (Q : B -> Prop) :
  returns m P -> (forall a, P a -> returns (k a) Q) -> returns (bind m k) Q.
Proof.
  intros [a [Hm Ha]] Hk. rewrite Hm. simpl. apply Hk, Ha.
Qed.

Lemma returns_weaken {A : Type} (m : result A) (P Q : A -> Prop) :
  returns m P -> (forall a, P a -> Q a) -> returns m Q.
Proof.
  intros [a [Hm Ha]] HPQ. exists a. split; [exact Hm | apply HPQ, Ha].
Qed.

Lemma returns_inv {A : Type} (m : result A) (P : A -> Prop) (a : A) :
  returns m P -> m = Ok a -> P a.
Proof.
  intros [a' [Hm Ha]] E. rewrite Hm in E. injection E as ->. exact Ha.
Qed.

Lemma collect_returns {A B : Type} (f : A -> result (list B))
    (P : A -> B -> Prop) (xs : list A) :
  (forall x, In x xs -> returns (f x) (fun ys => forall y, In y ys <-> P x y)) ->
  returns (collect f xs)
          (fun zs => forall y, In y zs <-> exists x, In x xs /\ P x y).
Proof.
  induction xs as [| x xs IH]; intros H; simpl.
  - apply returns_ok. intros y. split; [intros [] | intros [x [[] _]]].
  - apply returns_bind with (P := fun ys => forall y, In y ys <-> P x y).
    + apply H. left. reflexivity.
    + intros ys Hys.
      apply returns_bind
        with (P := fun zs => forall y, In y zs <-> exists x, In x xs /\ P x y).
      * apply IH. intros x' Hx'. apply H. right. exact Hx'.
      * intros zs Hzs. apply returns_ok. intros y. rewrite in_app_iff.
        rewrite Hys, Hzs. split.
        -- intros [Hy | [x' [Hx' Hy]]].
           ++ exists x. split; [left; reflexivity | exact Hy].
           ++ exists x'. split; [right; exact Hx' | exact Hy].
        -- intros [x' [[<- | Hx'] Hy]].
           ++ left. exact Hy.
           ++ right. exists x'. split; assumption.
Qed.

Lemma any_of_returns {A : Type} (f : A -> result bool) (P : A -> Prop)
    (xs : list A) :
  (forall x, In x xs -> returns (f x) (fun h => h = true <-> P x)) ->
  returns (any_of f xs) (fun h => h = true <-> exists x, In x xs /\ P x).
Proof.
  induction xs as [| x xs IH]; intros H; simpl.
  - apply returns_ok. split; [discriminate | intros [x [[] _]]].
  - apply returns_bind with (P := fun h => h = true <-> P x).
    + apply H. left. reflexivity.
    + intros [|] Hh.
      * apply returns_ok. split; [| reflexivity].
        intros _. exists x. split; [left; reflexivity | apply Hh; reflexivity].
      * assert (IH' : returns (any_of f xs)
                  (fun h => h = true <-> exists x, In x xs /\ P x)).
        { apply IH. intros x' Hx'. apply H. right. exact Hx'. }
        apply returns_weaken with (1 := IH').
        intros h Hiff. rewrite Hiff. split.
        -- intros [x' [Hx' Hp]]. exists x'. split; [right; exact Hx' | exact Hp].
        -- intros [x' [[<- | Hx'] Hp]].
           ++ apply Hh in Hp. discriminate.
           ++ exists x'. split; assumption.
Qed.

Lemma first_of_returns {A B : Type} (f : A -> result (option B))
    (Found : B -> Prop) (Missing : A -> Prop) (xs : list A) :
  (forall x, In x xs ->
     returns (f x) (fun o => match o with
                             | Some v => Found v
                             | None => Missing x
                             end)) ->
  returns (first_of f xs)
          (fun o => match o with
                    | Some v => Found v
                    | None => forall x, In x xs -> Missing x
                    end).
Proof.
  induction xs as [| x xs IH]; intros H; simpl.
  - apply returns_ok. intros x [].
  - apply returns_bind
      with (P := fun o => match o with Some v => Found v | None => Missing x end).
    + apply H. left. reflexivity.
    + intros [v |] Ho.
      * apply returns_ok. exact Ho.
      * assert (IH' : returns (first_of f xs)
                  (fun o => match o with
                            | Some v => Found v
                            | None => forall x, In x xs -> Missing x
                            end)).
        { apply IH. intros x' Hx'. apply H. right. exact Hx'. }
        apply returns_weaken with (1 := IH').
        intros [v |] Hv; [exact Hv |].
        intros x' [<- | Hx']; [exact Ho | apply Hv, Hx'].
Qed.

(** ** Colours, kinds, squares *)

Lemma color_eqb_eq (a b : Color) : color_eqb a b = true <-> a = b.
Proof. destruct a, b; simpl; split; congruence. Qed.

Lemma color_eqb_neq (a b : Color) : color_eqb a b = false <-> a <> b.
Proof. destruct a, b; simpl; split; congruence. Qed.

Lemma kind_eqb_eq (a b : Kind) : kind_eqb a b = true <-> a = b.
Proof. destruct a, b; simpl; split; congruence. Qed.

Lemma other_neq (col : Color) : other col <> col.
Proof. destruct col; discriminate. Qed.

Lemma inside_iff (r c : Z) :
  inside r c = true <-> 0 <= r < 8 /\ 0 <= c < 8.
Proof. unfold inside, ROWS, COLS. lia. Qed.

Lemma inside_false_iff (r c : Z) :
  inside r c = false <-> ~ (0 <= r < 8 /\ 0 <= c < 8).
Proof. unfold inside, ROWS, COLS. lia. Qed.

Lemma in_range (n i : Z) : In i (range n) <-> 0 <= i < n.
Proof.
  unfold range. rewrite in_map_iff. split.
  - intros [k [<- Hk]]. apply in_seq in Hk. lia.
  - intros Hi. exists (Z.to_nat i). split; [lia |]. apply in_seq. lia.
Qed.

(** ** Well-formed grids: 8 rows of 8 squares *)

Lemma index_ok {A : Type} (l : list A) (i : Z) :
  0 <= i < Z.of_nat (length l) -> exists a, index l i = Ok a /\ In a l.
Proof.
  intros Hi. unfold index.
  replace (0 <=? i) with true by lia.
  destruct (nth_error l (Z.to_nat i)) as [a |] eqn:E.
  - exists a. split; [reflexivity |]. eapply nth_error_In. exact E.
  - apply nth_error_None in E. lia.
Qed.

Lemma grid_get_inside (g : Grid) (r c : Z) :
  wf_grid g -> inside r c = true -> grid_get g r c = Ok (cell g r c).
Proof.
  intros [Hlen Hrows] Hin. apply inside_iff in Hin.
  unfold cell, grid_get.
  destruct (index_ok g r) as [row [E Hrow]]; [lia |].
  rewrite E. simpl.
  rewrite Forall_forall in Hrows. specialize (Hrows row Hrow).
  destruct (index_ok row c) as [p [E' _]]; [lia |].
  rewrite E'. reflexivity.
Qed.

Lemma returns_grid_get (g : Grid) (r c : Z) (P : option Piece -> Prop) :
  wf_grid g -> inside r c = true -> P (cell g r c) -> returns (grid_get g r c) P.
Proof.
  intros Hwf Hin HP. rewrite grid_get_inside by assumption.
  apply returns_ok, HP.
Qed.

(** ** Writing a square *)

Lemma set_nth_ok {A : Type} (l : list A) (n : nat) (v : A) :
  (n < length l)%nat ->
  exists l', set_nth l n v = Ok l' /\ length l' = length l /\
    forall m, nth_error l' m = if Nat.eqb m n then Some v else nth_error l m.
Proof.
  revert n. induction l as [| h t IH]; intros n Hn; simpl in Hn; [lia |].
  destruct n as [| n]; simpl.
  - exists (v :: t). repeat split. intros [| m]; reflexivity.
  - destruct (IH n) as [t' [E [Hlen Hnth]]]; [lia |].
    rewrite E. simpl. exists (h :: t'). repeat split.
    + simpl. rewrite Hlen. reflexivity.
    + intros [| m]; simpl; [reflexivity | apply Hnth].
Qed.

Lemma index_nth {A : Type} (l : list A) (i : Z) (a : A) :
  0 <= i -> nth_error l (Z.to_nat i) = Some a -> index l i = Ok a.
Proof.
  intros Hi E. unfold index. replace (0 <=? i) with true by lia.
  rewrite E. reflexivity.
Qed.

Lemma cell_nth (g : Grid) (r c : Z) (row : list (option Piece)) :
  0 <= r -> 0 <= c -> nth_error g (Z.to_nat r) = Some row ->
  cell g r c = match nth_error row (Z.to_nat c) with
               | Some p => p
               | None => None
               end.
Proof.
  intros Hr Hc E. unfold cell, grid_get.
  rewrite (index_nth g r row Hr E). simpl. unfold index.
  replace (0 <=? c) with true by lia.
  destruct (nth_error row (Z.to_nat c)); reflexivity.
Qed.

Lemma grid_set_ok (g : Grid) (r c : Z) (v : option Piece) :
  wf_grid g -> inside r c = true ->
  exists g', grid_set g r c v = Ok g' /\ wf_grid g' /\
    forall r' c', inside r' c' = true ->
      cell g' r' c' = if (r' =? r) && (c' =? c) then v else cell g r' c'.
Proof.
  intros [Hlen Hrows] Hin. apply inside_iff in Hin.
  rewrite Forall_forall in Hrows.
  destruct (nth_error g (Z.to_nat r)) as [row |] eqn:Er;
    [| apply nth_error_None in Er; lia].
  assert (Hrow : length row = 8%nat) by (eapply Hrows, nth_error_In, Er).
  destruct (set_nth_ok row (Z.to_nat c) v) as [row' [Es [Hl' Hn']]]; [lia |].
  destruct (set_nth_ok g (Z.to_nat r) row') as [g' [Eg [Hlg Hng]]]; [lia |].
  exists g'. split; [| split].
  - unfold grid_set. rewrite (index_nth g r row) by (lia || assumption).
    simpl. unfold store. replace (0 <=? c) with true by lia.
    rewrite Es. simpl. replace (0 <=? r) with true by lia. exact Eg.
  - split; [lia |]. apply Forall_forall. intros x Hx.
    apply In_nth_error in Hx. destruct Hx as [m Hm].
    rewrite Hng in Hm. destruct (Nat.eqb m (Z.to_nat r)).
    + injection Hm as <-. lia.
    + eapply Hrows, nth_error_In, Hm.
  - intros r' c' Hin'. apply inside_iff in Hin'.
    destruct (r' =? r) eqn:Err; simpl.
    + assert (r' = r) by lia. subst r'.
      assert (Eg' : nth_error g' (Z.to_nat r) = Some row').
      { rewrite Hng, Nat.eqb_refl. reflexivity. }
      rewrite (cell_nth g' r c' row') by (lia || assumption).
      rewrite Hn'. destruct (c' =? c) eqn:Ecc.
      * replace (Nat.eqb (Z.to_nat c') (Z.to_nat c)) with true
          by (symmetry; apply Nat.eqb_eq; lia). reflexivity.
      * replace (Nat.eqb (Z.to_nat c') (Z.to_nat c)) with false
          by (symmetry; apply Nat.eqb_neq; lia).
        rewrite (cell_nth g r c' row) by (lia || assumption). reflexivity.
    + assert (Ene : Nat.eqb (Z.to_nat r') (Z.to_nat r) = false)
        by (apply Nat.eqb_neq; lia).
      destruct (nth_error g (Z.to_nat r')) as [row2 |] eqn:Er2;
        [| apply nth_error_None in Er2; lia].
      rewrite (cell_nth g r' c' row2) by (lia || assumption).
      rewrite (cell_nth g' r' c' row2); [reflexivity | lia | lia |].
      rewrite Hng, Ene. exact Er2.
Qed.

(** [Board.copy] yields an equal, independent value. *)
Lemma copy_eq (b : Board) : copy b = b.
Proof.
  destruct b as [g t]. unfold copy. simpl. f_equal.
  rewrite <- (map_id g) at 2. apply map_ext. intros row.
  rewrite <- (map_id row) at 2. apply map_ext.
  intros [[cl kd] |]; reflexivity.
Qed.

(* ================================================================= *)
(** * Positions used as concrete inputs *)

Lemma Board_init_start : Board_init = Ok start_board.
Proof. reflexivity. Qed.

Lemma wf_start_board : wf start_board.
Proof. prove_wf. Qed.

(* ================================================================= *)
(** * Unchecked move application *)

Lemma make_move_no_checks_spec (b : Board) (sr sc dr dc : Z) :
  wf b -> inside sr sc = true -> inside dr dc = true ->
  returns (_make_move_no_checks b (sr, sc) (dr, dc))
    (fun b' =>
       wf b' /\ to_move b' = to_move b /\
       forall r c, inside r c = true ->
         cell (grid b') r c =
           if (r =? sr) && (c =? sc) then None
           else if (r =? dr) && (c =? dc) then cell (grid b) sr sc
           else cell (grid b) r c).
Proof.
  intros Hwf Hs Hd. unfold _make_move_no_checks.
  rewrite grid_get_inside by assumption. simpl.
  destruct (grid_set_ok (grid b) dr dc (cell (grid b) sr sc) Hwf Hd)
    as [g1 [E1 [Hwf1 H1]]].
  rewrite E1. simpl.
  destruct (grid_set_ok g1 sr sc None Hwf1 Hs) as [g2 [E2 [Hwf2 H2]]].
  rewrite E2. simpl. apply returns_ok. split; [exact Hwf2 |].
  split; [reflexivity |]. intros r c Hin. simpl.
  rewrite H2 by assumption.
  destruct ((r =? sr) && (c =? sc)); [reflexivity |].
  apply H1. exact Hin.
Qed.

(** C9: for two different squares of the board, the unchecked move always
    succeeds, whatever the pieces involved (no legality check); it puts
    exactly the piece that stood on [from] on [to], overwriting any
    occupant and promoting nothing, leaves [from] empty, and leaves every
    square other than [from] and [to] and the side to move unchanged. *)
Theorem make_move_no_checks_frame (b : Board) (sr sc dr dc : Z) :
  wf b -> inside sr sc = true -> inside dr dc = true ->
  (sr, sc) <> (dr, dc) ->
  returns (_make_move_no_checks b (sr, sc) (dr, dc))
    (fun b' =>
       cell (grid b') dr dc = cell (grid b) sr sc /\
       cell (grid b') sr sc = None /\
       (forall r c, inside r c = true ->
          (r, c) <> (sr, sc) -> (r, c) <> (dr, dc) ->
          cell (grid b') r c = cell (grid b) r c) /\
       to_move b' = to_move b).
Proof.
  intros Hwf Hs Hd Hne.
  apply returns_weaken with (1 := make_move_no_checks_spec b sr sc dr dc Hwf Hs Hd).
  intros b' [_ [Ht Hc]]. repeat split.
  - rewrite Hc by assumption. rewrite !Z.eqb_refl. simpl.
    destruct ((dr =? sr) && (dc =? sc)) eqn:E; [| reflexivity].
    exfalso. apply Hne. f_equal; lia.
  - rewrite Hc by assumption. rewrite !Z.eqb_refl. reflexivity.
  - intros r c Hin Hns Hnd. rewrite Hc by assumption.
    destruct ((r =? sr) && (c =? sc)) eqn:E1.
    { exfalso. apply Hns. f_equal; lia. }
    destruct ((r =? dr) && (c =? dc)) eqn:E2; [| reflexivity].
    exfalso. apply Hnd. f_equal; lia.
  - exact Ht.
Qed.

Lemma make_move_no_checks_frame_witness :
  wf start_board /\ inside 6 4 = true /\ inside 4 4 = true /\
  (6, 4) <> (4, 4) /\
  returns (_make_move_no_checks start_board (6, 4) (4, 4))
    (fun b' =>
       cell (grid b') 4 4 = cell (grid start_board) 6 4 /\
       cell (grid b') 6 4 = None /\
       (forall r c, inside r c = true ->
          (r, c) <> (6, 4) -> (r, c) <> (4, 4) ->
          cell (grid b') r c = cell (grid start_board) r c) /\
       to_move b' = to_move start_board).
Proof.
  split; [prove_wf |]. split; [reflexivity |]. split; [reflexivity |].
  split; [discriminate |].
  apply (make_move_no_checks_frame start_board 6 4 4 4);
    [prove_wf | reflexivity | reflexivity | discriminate].
Defined.

(** A pawn moved onto its last row by the unchecked move stays a pawn:
    promotion is left to the callers. *)
Example make_move_no_checks_keeps_pawn :
  returns (_make_move_no_checks promotion_board (1, 0) (0, 0))
    (fun b' => cell (grid b') 0 0 = Some (mkPiece WHITE Pawn)).
Proof. eexists. split; [vm_compute; reflexivity | reflexivity]. Qed.

(* ================================================================= *)
(** * The [while] scans along a direction *)

Lemma step_row_0 (r dr : Z) : step_row r dr 0 = r.
Proof. unfold step_row. lia. Qed.

Lemma step_row_S (r dr : Z) (k : nat) :
  step_row (r + dr) dr k = step_row r dr (S k).
Proof. unfold step_row. lia. Qed.

Lemma clear_run_0 (g : Grid) (r c dr dc : Z) : clear_run g r c dr dc 0.
Proof. intros j Hj. lia. Qed.

Lemma clear_run_S (g : Grid) (r c dr dc : Z) (k : nat) :
  clear_run g r c dr dc (S k) <->
  inside r c = true /\ cell g r c = None /\
  clear_run g (r + dr) (c + dc) dr dc k.
Proof.
  split.
  - intros H. destruct (H 0%nat) as [Hi Hc]; [lia |].
    rewrite !step_row_0 in Hi, Hc. repeat split; try assumption.
    + rewrite !step_row_S. apply H. lia.
    + rewrite !step_row_S. apply H. lia.
  - intros [Hi [Hc H]] [| j] Hj.
    + rewrite !step_row_0. split; assumption.
    + rewrite <- !step_row_S. apply H. lia.
Qed.

Lemma fuel_covers_step (fuel : nat) (r c dr dc : Z) :
  fuel_covers (S fuel) r c dr dc -> inside r c = true ->
  fuel_covers fuel (r + dr) (c + dc) dr dc.
Proof.
  intros [_ H] Hin. split.
  - intros ->. specialize (H 0%nat (le_n _)).
    rewrite !step_row_0 in H. congruence.
  - intros j Hj. rewrite !step_row_S. apply H. lia.
Qed.

Lemma first_piece_0 (g : Grid) (r c dr dc : Z) (k : nat) (q q' : Piece) :
  inside r c = true -> cell g r c = Some q ->
  first_piece g r c dr dc k q' -> k = 0%nat /\ q' = q.
Proof.
  intros Hin Hc [Hrun [_ Hq]]. destruct k as [| k].
  - rewrite !step_row_0 in Hq. split; congruence.
  - apply clear_run_S in Hrun. destruct Hrun as [_ [Hn _]]. congruence.
Qed.

Lemma first_piece_S (g : Grid) (r c dr dc : Z) (k : nat) (q : Piece) :
  inside r c = true -> cell g r c = None ->
  (first_piece g r c dr dc (S k) q <->
   first_piece g (r + dr) (c + dc) dr dc k q).
Proof.
  intros Hin Hc. unfold first_piece.
  rewrite clear_run_S, !step_row_S. tauto.
Qed.

Lemma first_piece_outside (g : Grid) (r c dr dc : Z) (k : nat) (q : Piece) :
  inside r c = false -> ~ first_piece g r c dr dc k q.
Proof.
  intros Hout [Hrun [Hin _]]. destruct k as [| k].
  - rewrite !step_row_0 in Hin. congruence.
  - apply clear_run_S in Hrun. destruct Hrun as [Hi _]. congruence.
Qed.

Lemma attack_scan_spec (fuel : nat) (b : Board) (rr cc dr dc : Z)
    (by_color : Color) (k1 k2 : Kind) :
  wf b -> fuel_covers fuel rr cc dr dc ->
  returns (attack_scan fuel b rr cc dr dc by_color k1 k2)
    (fun h => h = true <->
       exists (k : nat) (q : Piece),
         first_piece (grid b) rr cc dr dc k q /\
         color q = by_color /\ (kind q = k1 \/ kind q = k2)).
Proof.
  intros Hwf. revert rr cc.
  induction fuel as [| fuel IH]; intros rr cc Hfuel.
  - destruct Hfuel as [Hne _]. congruence.
  - simpl. destruct (inside rr cc) eqn:Hin.
    + rewrite grid_get_inside by assumption. simpl.
      destruct (cell (grid b) rr cc) as [q |] eqn:Hc.
      * apply returns_ok.
        rewrite andb_true_iff, orb_true_iff, color_eqb_eq, !kind_eqb_eq.
        split.
        -- intros Hq. exists 0%nat, q. split; [| exact Hq].
           split; [apply clear_run_0 |]. rewrite !step_row_0. split; assumption.
        -- intros [k [q' [Hfp Hq]]].
           destruct (first_piece_0 _ _ _ _ _ _ _ _ Hin Hc Hfp) as [_ ->].
           exact Hq.
      * apply returns_weaken
          with (1 := IH (rr + dr) (cc + dc) (fuel_covers_step _ _ _ _ _ Hfuel Hin)).
        intros h Hh. rewrite Hh. split.
        -- intros [k [q [Hfp Hq]]]. exists (S k), q. split; [| exact Hq].
           apply first_piece_S; assumption.
        -- intros [k [q [Hfp Hq]]]. destruct k as [| k].
           ++ destruct Hfp as [_ [_ Hs]]. rewrite !step_row_0 in Hs. congruence.
           ++ exists k, q. split; [| exact Hq].
              apply first_piece_S in Hfp; assumption.
    + apply returns_ok. split; [discriminate |].
      intros [k [q [Hfp _]]]. exfalso.
      exact (first_piece_outside _ _ _ _ _ _ _ Hin Hfp).
Qed.

Lemma ray_scan_spec (fuel : nat) (b : Board) (r c : Z) (col : Color)
    (nr nc dr dc : Z) :
  wf b -> fuel_covers fuel nr nc dr dc ->
  returns (ray_scan fuel b r c col nr nc dr dc)
    (fun ms => forall m, In m ms <->
       exists k : nat,
         m = ((r, c), (step_row nr dr k, step_row nc dc k)) /\
         ray_reaches (grid b) col nr nc dr dc k).
Proof.
  intros Hwf. revert nr nc.
  induction fuel as [| fuel IH]; intros nr nc Hfuel.
  - destruct Hfuel as [Hne _]. congruence.
  - simpl. destruct (inside nr nc) eqn:Hin.
    + rewrite grid_get_inside by assumption. simpl.
      destruct (cell (grid b) nr nc) as [q |] eqn:Hc.
      * assert (Hk : forall k, ray_reaches (grid b) col nr nc dr dc k ->
                       k = 0%nat).
        { intros [| k] [Hrun _]; [reflexivity |].
          apply clear_run_S in Hrun. destruct Hrun as [_ [Hn _]]. congruence. }
        destruct (negb (color_eqb (color q) col)) eqn:Hq; apply returns_ok;
          intros m; simpl; split.
        -- intros [<- | []]. exists 0%nat. rewrite !step_row_0.
           split; [reflexivity |]. split; [apply clear_run_0 |].
           rewrite !step_row_0, Hc. split; [exact Hin | exact Hq].
        -- intros [k [-> Hr]]. rewrite (Hk k Hr), !step_row_0. left. reflexivity.
        -- intros [].
        -- intros [k [_ Hr]]. pose proof (Hk k Hr) as ->.
           destruct Hr as [_ [_ Hf]]. rewrite !step_row_0, Hc in Hf.
           simpl in Hf. congruence.
      * apply returns_bind
          with (1 := IH (nr + dr) (nc + dc) (fuel_covers_step _ _ _ _ _ Hfuel Hin)).
        intros rest Hrest. apply returns_ok. intros m. simpl.
        rewrite Hrest. split.
        -- intros [<- | [k [-> [Hrun [Hi Hf]]]]].
           ++ exists 0%nat. rewrite !step_row_0. split; [reflexivity |].
              split; [apply clear_run_0 |]. rewrite !step_row_0, Hc.
              split; [exact Hin | reflexivity].
           ++ exists (S k). rewrite <- !step_row_S. split; [reflexivity |].
              split; [apply clear_run_S; tauto |].
              rewrite <- !step_row_S. split; assumption.
        -- intros [[| k] [-> [Hrun [Hi Hf]]]].
           ++ left. rewrite !step_row_0. reflexivity.
           ++ right. exists k. rewrite !step_row_S. split; [reflexivity |].
              apply clear_run_S in Hrun. split; [tauto |].
              rewrite !step_row_S. split; assumption.
    + apply returns_ok. intros m. split; [intros [] |].
      intros [[| k] [_ [Hrun [Hi _]]]].
      * rewrite !step_row_0 in Hi. congruence.
      * apply clear_run_S in Hrun. destruct Hrun as [Hi' _]. congruence.
Qed.

Lemma scan_fuel_covers (r c : Z) (d : Z * Z) :
  inside r c = true -> In d queen_deltas ->
  fuel_covers scan_fuel (r + fst d) (c + snd d) (fst d) (snd d).
Proof.
  intros Hin Hd. apply inside_iff in Hin. split; [discriminate |].
  intros j Hj. apply inside_false_iff. unfold step_row.
  assert (Hj' : 15 <= Z.of_nat j) by (unfold scan_fuel in Hj; simpl in Hj; lia).
  simpl in Hd.
  repeat (destruct Hd as [<- | Hd]; [simpl; lia |]). destruct Hd.
Qed.

(* ================================================================= *)
(** * Attack detection *)

Lemma returns_guarded_piece (g : Grid) (rr cc : Z) (by_color : Color) (k : Kind) :
  wf_grid g ->
  returns (if inside rr cc
           then p <- grid_get g rr cc ;; Ok (is_piece p by_color k)
           else Ok false)
    (fun h => h = true <->
       inside rr cc = true /\ is_piece (cell g rr cc) by_color k = true).
Proof.
  intros Hwf. destruct (inside rr cc) eqn:Hin.
  - rewrite grid_get_inside by assumption. simpl. apply returns_ok. tauto.
  - apply returns_ok. split; [discriminate | intros [H _]; discriminate].
Qed.

Lemma attacked_by_knight_spec (b : Board) (r c : Z) (by_color : Color) :
  wf b ->
  returns (attacked_by_knight b r c by_color)
    (fun h => h = true <->
       exists d, In d knight_deltas /\
         inside (r + fst d) (c + snd d) = true /\
         is_piece (cell (grid b) (r + fst d) (c + snd d)) by_color Knight = true).
Proof.
  intros Hwf. unfold attacked_by_knight.
  apply any_of_returns. intros d _. cbv zeta.
  apply returns_guarded_piece, Hwf.
Qed.

Lemma attacked_by_pawn_spec (b : Board) (r c : Z) (by_color : Color) :
  wf b ->
  returns (attacked_by_pawn b r c by_color)
    (fun h => h = true <->
       exists dc, In dc [-1; 1] /\
         inside (r + pawn_probe_dir by_color) (c + dc) = true /\
         is_piece (cell (grid b) (r + pawn_probe_dir by_color) (c + dc))
                  by_color Pawn = true).
Proof.
  intros Hwf. unfold attacked_by_pawn. cbv zeta.
  apply any_of_returns. intros d _.
  apply returns_guarded_piece, Hwf.
Qed.

Lemma attacked_by_king_spec (b : Board) (r c : Z) (by_color : Color) :
  wf b ->
  returns (attacked_by_king b r c by_color)
    (fun h => h = true <->
       exists dr, In dr [-1; 0; 1] /\ exists dc, In dc [-1; 0; 1] /\
         (dr, dc) <> (0, 0) /\
         inside (r + dr) (c + dc) = true /\
         is_piece (cell (grid b) (r + dr) (c + dc)) by_color King = true).
Proof.
  intros Hwf. unfold attacked_by_king.
  apply any_of_returns. intros dr _.
  apply any_of_returns. intros dc _. cbv zeta.
  destruct ((dr =? 0) && (dc =? 0)) eqn:E.
  - apply returns_ok. split; [discriminate |].
    intros [Hne _]. exfalso. apply Hne. f_equal; lia.
  - apply returns_weaken
      with (1 := returns_guarded_piece (grid b) (r + dr) (c + dc) by_color King Hwf).
    intros h Hh. rewrite Hh. split; [| tauto].
    intros H. split; [| exact H]. intros Heq. injection Heq as -> ->.
    discriminate.
Qed.

Lemma straight_in_queen (d : Z * Z) : In d straight_deltas -> In d queen_deltas.
Proof. simpl. tauto. Qed.

Lemma diagonal_in_queen (d : Z * Z) : In d diagonal_deltas -> In d queen_deltas.
Proof. simpl. tauto. Qed.

Lemma attacked_on_straight_spec (b : Board) (r c : Z) (by_color : Color) :
  wf b -> inside r c = true ->
  returns (attacked_on_straight b r c by_color)
    (fun h => h = true <->
       exists d, In d straight_deltas /\
         exists (k : nat) (q : Piece),
           first_piece (grid b) (r + fst d) (c + snd d) (fst d) (snd d) k q /\
           color q = by_color /\ (kind q = Rook \/ kind q = Queen)).
Proof.
  intros Hwf Hin. unfold attacked_on_straight.
  apply any_of_returns. intros d Hd.
  apply attack_scan_spec; [exact Hwf |].
  apply scan_fuel_covers; [exact Hin | apply straight_in_queen, Hd].
Qed.

Lemma attacked_on_diagonal_spec (b : Board) (r c : Z) (by_color : Color) :
  wf b -> inside r c = true ->
  returns (attacked_on_diagonal b r c by_color)
    (fun h => h = true <->
       exists d, In d diagonal_deltas /\
         exists (k : nat) (q : Piece),
           first_piece (grid b) (r + fst d) (c + snd d) (fst d) (snd d) k q /\
           color q = by_color /\ (kind q = Bishop \/ kind q = Queen)).
Proof.
  intros Hwf Hin. unfold attacked_on_diagonal.
  apply any_of_returns. intros d Hd.
  apply attack_scan_spec; [exact Hwf |].
  apply scan_fuel_covers; [exact Hin | apply diagonal_in_queen, Hd].
Qed.

Lemma returns_total {A : Type} (m : result A) (P : A -> Prop) :
  returns m P -> exists a, m = Ok a.
Proof. intros [a [E _]]. exists a. exact E. Qed.

(** [is_square_attacked] is the disjunction of its five loops. *)
Lemma is_square_attacked_loops (b : Board) (r c : Z) (by_color : Color) :
  wf b -> inside r c = true ->
  exists a1 a2 a3 a4 a5 : bool,
    attacked_by_knight b r c by_color = Ok a1 /\
    attacked_by_pawn b r c by_color = Ok a2 /\
    attacked_by_king b r c by_color = Ok a3 /\
    attacked_on_straight b r c by_color = Ok a4 /\
    attacked_on_diagonal b r c by_color = Ok a5 /\
    is_square_attacked b r c by_color = Ok (a1 || a2 || a3 || a4 || a5).
Proof.
  intros Hwf Hin.
  destruct (returns_total _ _ (attacked_by_knight_spec b r c by_color Hwf))
    as [a1 E1].
  destruct (returns_total _ _ (attacked_by_pawn_spec b r c by_color Hwf))
    as [a2 E2].
  destruct (returns_total _ _ (attacked_by_king_spec b r c by_color Hwf))
    as [a3 E3].
  destruct (returns_total _ _ (attacked_on_straight_spec b r c by_color Hwf Hin))
    as [a4 E4].
  destruct (returns_total _ _ (attacked_on_diagonal_spec b r c by_color Hwf Hin))
    as [a5 E5].
  exists a1, a2, a3, a4, a5. repeat (split; [assumption |]).
  unfold is_square_attacked. rewrite E1, E2, E3, E4, E5. simpl.
  destruct a1, a2, a3, a4, a5; reflexivity.
Qed.

Lemma is_square_attacked_total (b : Board) (r c : Z) (by_color : Color) :
  wf b -> inside r c = true ->
  exists a, is_square_attacked b r c by_color = Ok a.
Proof.
  intros Hwf Hin.
  destruct (is_square_attacked_loops b r c by_color Hwf Hin)
    as [a1 [a2 [a3 [a4 [a5 H]]]]].
  exists (a1 || a2 || a3 || a4 || a5). apply H.
Qed.

(* ================================================================= *)
(** * Per-piece move generation *)

Lemma returns_one_or_none {B : Type} (cond : bool) (m0 : B) (Q : B -> Prop) :
  (forall y, Q y <-> cond = true /\ y = m0) ->
  returns (if cond then Ok [m0] else Ok []) (fun ys => forall y, In y ys <-> Q y).
Proof.
  intros HQ. destruct cond; apply returns_ok; intros y; rewrite HQ; simpl.
  - split; [intros [<- | []]; tauto | intros [_ ->]; left; reflexivity].
  - split; [intros [] | intros [H _]; discriminate].
Qed.

Lemma returns_guarded_move (g : Grid) (nr nc : Z) (test : option Piece -> bool)
    (m0 : Move) :
  wf_grid g ->
  returns (if inside nr nc
           then t <- grid_get g nr nc ;; if test t then Ok [m0] else Ok []
           else Ok [])
    (fun ys => forall y, In y ys <->
       y = m0 /\ inside nr nc = true /\ test (cell g nr nc) = true).
Proof.
  intros Hwf. destruct (inside nr nc) eqn:Hin.
  - rewrite grid_get_inside by assumption. simpl.
    apply returns_one_or_none. tauto.
  - apply returns_ok. intros y. simpl. split; [tauto |].
    intros [_ [H _]]. discriminate.
Qed.

Lemma knight_moves_spec (b : Board) (r c : Z) (col : Color) :
  wf b ->
  returns (_knight_moves b r c col)
    (fun ms => forall m, In m ms <->
       exists d, In d knight_deltas /\
         m = ((r, c), (r + fst d, c + snd d)) /\
         inside (r + fst d) (c + snd d) = true /\
         free_for (cell (grid b) (r + fst d) (c + snd d)) col = true).
Proof.
  intros Hwf. unfold _knight_moves.
  apply collect_returns. intros d _. cbv zeta.
  apply (returns_guarded_move (grid b) (r + fst d) (c + snd d)
           (fun t => free_for t col)), Hwf.
Qed.

Lemma pawn_moves_spec (b : Board) (r c : Z) (col : Color) :
  wf b ->
  returns (_pawn_moves b r c col)
    (fun ms => forall m, In m ms <->
       (inside (r + pawn_dir col) c = true /\
        cell (grid b) (r + pawn_dir col) c = None /\
        (m = ((r, c), (r + pawn_dir col, c)) \/
         (m = ((r, c), (r + 2 * pawn_dir col, c)) /\ r = pawn_start_row col /\
          cell (grid b) (r + 2 * pawn_dir col) c = None))) \/
       (exists dc, In dc [-1; 1] /\
          m = ((r, c), (r + pawn_dir col, c + dc)) /\
          inside (r + pawn_dir col) (c + dc) = true /\
          enemy_of (cell (grid b) (r + pawn_dir col) (c + dc)) col = true)).
Proof.
  intros Hwf. unfold _pawn_moves. fold (pawn_dir col) (pawn_start_row col).
  cbv zeta.
  apply returns_bind with (P := fun fw => forall m, In m fw <->
       (inside (r + pawn_dir col) c = true /\
        cell (grid b) (r + pawn_dir col) c = None /\
        (m = ((r, c), (r + pawn_dir col, c)) \/
         (m = ((r, c), (r + 2 * pawn_dir col, c)) /\ r = pawn_start_row col /\
          cell (grid b) (r + 2 * pawn_dir col) c = None)))).
  - destruct (inside (r + pawn_dir col) c) eqn:Hin.
    + rewrite grid_get_inside by assumption. cbn [bind].
      destruct (cell (grid b) (r + pawn_dir col) c) as [q |] eqn:Hc;
        cbn [is_none].
      * apply returns_ok. intros m. cbn [In]. split; [tauto |].
        intros [_ [H _]]. discriminate.
      * destruct (r =? pawn_start_row col) eqn:Hr.
        -- assert (Hin2 : inside (r + 2 * pawn_dir col) c = true).
           { apply inside_iff in Hin. apply inside_iff.
             unfold pawn_dir, pawn_start_row in *.
             destruct col; cbn [color_eqb] in *; lia. }
           rewrite grid_get_inside by assumption. cbn [bind].
           destruct (cell (grid b) (r + 2 * pawn_dir col) c) as [q2 |] eqn:Hc2;
             cbn [is_none]; apply returns_ok; intros m; cbn [In].
           ++ split; [intros [<- | []]; tauto |].
              intros [_ [_ [-> | [_ [_ H]]]]]; [tauto | discriminate].
           ++ split.
              ** intros [<- | [<- | []]]; [tauto |].
                 split; [reflexivity |]. split; [reflexivity |]. right.
                 repeat split. lia.
              ** intros [_ [_ [-> | [-> _]]]]; tauto.
        -- apply returns_ok. intros m. cbn [In].
           split; [intros [<- | []]; tauto |].
           intros [_ [_ [-> | [_ [H _]]]]]; [tauto | lia].
    + apply returns_ok. intros m. cbn [In]. split; [tauto |].
      intros [H _]. discriminate.
  - intros fw Hfw.
    apply returns_bind with (P := fun cp => forall m, In m cp <->
       (exists dc, In dc [-1; 1] /\
          m = ((r, c), (r + pawn_dir col, c + dc)) /\
          inside (r + pawn_dir col) (c + dc) = true /\
          enemy_of (cell (grid b) (r + pawn_dir col) (c + dc)) col = true)).
    + apply collect_returns. intros dc _.
      apply (returns_guarded_move (grid b) (r + pawn_dir col) (c + dc)
               (fun t => enemy_of t col)), Hwf.
    + intros cp Hcp. apply returns_ok. intros m.
      rewrite in_app_iff, Hfw, Hcp. reflexivity.
Qed.

Lemma ray_moves_spec (b : Board) (r c : Z) (col : Color) (deltas : list (Z * Z)) :
  wf b -> inside r c = true -> incl deltas queen_deltas ->
  returns (_ray_moves b r c col deltas)
    (fun ms => forall m, In m ms <->
       exists d, In d deltas /\ exists k : nat,
         m = ((r, c), (step_row (r + fst d) (fst d) k,
                       step_row (c + snd d) (snd d) k)) /\
         ray_reaches (grid b) col (r + fst d) (c + snd d) (fst d) (snd d) k).
Proof.
  intros Hwf Hin Hsub. unfold _ray_moves.
  apply collect_returns. intros d Hd.
  apply ray_scan_spec; [exact Hwf |].
  apply scan_fuel_covers; [exact Hin | apply Hsub, Hd].
Qed.

Lemma king_moves_spec (b : Board) (r c : Z) (col : Color) :
  wf b ->
  returns (_king_moves b r c col)
    (fun ms => forall m, In m ms <->
       exists dr, In dr [-1; 0; 1] /\ exists dc, In dc [-1; 0; 1] /\
         (dr, dc) <> (0, 0) /\
         m = ((r, c), (r + dr, c + dc)) /\
         inside (r + dr) (c + dc) = true /\
         free_for (cell (grid b) (r + dr) (c + dc)) col = true /\
         is_square_attacked b (r + dr) (c + dc) (other col) = Ok false).
Proof.
  intros Hwf. unfold _king_moves.
  apply collect_returns. intros dr _.
  apply collect_returns. intros dc _. cbv zeta.
  destruct ((dr =? 0) && (dc =? 0)) eqn:E.
  - apply returns_ok. intros m. simpl. split; [tauto |].
    intros [Hne _]. exfalso. apply Hne. f_equal; lia.
  - assert (Hne : (dr, dc) <> (0, 0)).
    { intros Heq. injection Heq as -> ->. discriminate. }
    destruct (inside (r + dr) (c + dc)) eqn:Hin.
    + rewrite grid_get_inside by assumption. simpl.
      destruct (free_for (cell (grid b) (r + dr) (c + dc)) col) eqn:Hf.
      * destruct (is_square_attacked_total b (r + dr) (c + dc) (other col) Hwf Hin)
          as [a Ea].
        rewrite Ea. simpl.
        apply returns_one_or_none. intros m. destruct a; simpl.
        -- split; [intros [_ [_ [_ [_ H]]]]; discriminate |].
           intros [H _]. discriminate.
        -- tauto.
      * apply returns_ok. intros m. simpl. split; [tauto |].
        intros [_ [_ [_ [H _]]]]. discriminate.
    + apply returns_ok. intros m. simpl. split; [tauto |].
      intros [_ [_ [H _]]]. discriminate.
Qed.

(* ================================================================= *)
(** * Pseudo-legal generation over the whole board *)

Lemma bishop_incl : incl [(-1, -1); (-1, 1); (1, -1); (1, 1)] queen_deltas.
Proof. intros d. simpl. tauto. Qed.

Lemma rook_incl : incl [(-1, 0); (1, 0); (0, -1); (0, 1)] queen_deltas.
Proof. intros d. simpl. tauto. Qed.

Lemma piece_moves_total (b : Board) (r c : Z) (col : Color) (k : Kind) :
  wf b -> inside r c = true -> exists l, piece_moves b r c col k = Ok l.
Proof.
  intros Hwf Hin. destruct k; simpl.
  - exact (returns_total _ _ (king_moves_spec b r c col Hwf)).
  - exact (returns_total _ _
             (ray_moves_spec b r c col _ Hwf Hin (incl_refl queen_deltas))).
  - exact (returns_total _ _ (ray_moves_spec b r c col _ Hwf Hin rook_incl)).
  - exact (returns_total _ _ (ray_moves_spec b r c col _ Hwf Hin bishop_incl)).
  - exact (returns_total _ _ (knight_moves_spec b r c col Hwf)).
  - exact (returns_total _ _ (pawn_moves_spec b r c col Hwf)).
Qed.

(** Every move a piece generates starts on its own square and ends on
    the board. *)
Lemma piece_moves_sound (b : Board) (r c : Z) (col : Color) (k : Kind)
    (l : list Move) (m : Move) :
  wf b -> inside r c = true -> piece_moves b r c col k = Ok l -> In m l ->
  fst m = (r, c) /\ inside (fst (snd m)) (snd (snd m)) = true.
Proof.
  intros Hwf Hin E Hm. destruct k; simpl in E.
  - apply (returns_inv _ _ _ (king_moves_spec b r c col Hwf) E) in Hm.
    destruct Hm as [dr [_ [dc [_ [_ [-> [Hi _]]]]]]]. split; [reflexivity | exact Hi].
  - apply (returns_inv _ _ _
             (ray_moves_spec b r c col _ Hwf Hin (incl_refl queen_deltas)) E) in Hm.
    destruct Hm as [d [_ [j [-> [_ [Hi _]]]]]]. split; [reflexivity | exact Hi].
  - apply (returns_inv _ _ _ (ray_moves_spec b r c col _ Hwf Hin rook_incl) E) in Hm.
    destruct Hm as [d [_ [j [-> [_ [Hi _]]]]]]. split; [reflexivity | exact Hi].
  - apply (returns_inv _ _ _ (ray_moves_spec b r c col _ Hwf Hin bishop_incl) E) in Hm.
    destruct Hm as [d [_ [j [-> [_ [Hi _]]]]]]. split; [reflexivity | exact Hi].
  - apply (returns_inv _ _ _ (knight_moves_spec b r c col Hwf) E) in Hm.
    destruct Hm as [d [_ [-> [Hi _]]]]. split; [reflexivity | exact Hi].
  - apply (returns_inv _ _ _ (pawn_moves_spec b r c col Hwf) E) in Hm.
    destruct Hm as [[Hi [_ [-> | [-> [Hr _]]]]] | [dc [_ [-> [Hi _]]]]];
      (split; [reflexivity |]); try exact Hi.
    cbn [fst snd]. apply inside_iff in Hi. apply inside_iff.
    unfold pawn_dir, pawn_start_row in *. destruct col; cbn [color_eqb] in *; lia.
Qed.

Lemma generate_pseudo_legal_moves_spec (b : Board) (col : Color) :
  wf b ->
  returns (generate_pseudo_legal_moves b col)
    (fun ms => forall m, In m ms <->
       exists r c q, generated_by b col r c q m).
Proof.
  intros Hwf. unfold generate_pseudo_legal_moves.
  apply returns_weaken with
    (P := fun ms => forall m, In m ms <->
       exists r, In r (range ROWS) /\ exists c, In c (range COLS) /\
         exists q, cell (grid b) r c = Some q /\ color q = col /\
           exists l, piece_moves b r c col (kind q) = Ok l /\ In m l).
  - apply collect_returns. intros r Hr.
    apply collect_returns. intros c Hc.
    assert (Hin : inside r c = true).
    { apply in_range in Hr, Hc. apply inside_iff. unfold ROWS, COLS in *. lia. }
    rewrite grid_get_inside by assumption. cbn [bind].
    destruct (cell (grid b) r c) as [q |] eqn:Hq.
    + destruct (color_eqb (color q) col) eqn:Hcol; cbn [negb].
      * apply color_eqb_eq in Hcol.
        destruct (piece_moves_total b r c col (kind q) Hwf Hin) as [l El].
        exists l. split; [exact El |]. intros m. split.
        -- intros Hm. exists q. repeat split; try assumption.
           exists l. split; [exact El | exact Hm].
        -- intros [q' [Hq' [_ [l' [El' Hm]]]]].
           injection Hq' as <-. rewrite El in El'. injection El' as <-. exact Hm.
      * apply color_eqb_neq in Hcol.
        apply returns_ok. intros m. split; [intros [] |].
        intros [q' [Hq' [Hc' _]]]. injection Hq' as <-. contradiction.
    + apply returns_ok. intros m. split; [intros [] |].
      intros [q' [Hq' _]]. discriminate.
  - intros ms Hms m. rewrite Hms. unfold generated_by. split.
    + intros [r [Hr [c [Hc [q [Hq [Hcol Hl]]]]]]]. exists r, c, q.
      repeat split; try assumption.
      apply in_range in Hr, Hc. apply inside_iff. unfold ROWS, COLS in *. lia.
    + intros [r [c [q [Hin [Hq [Hcol Hl]]]]]]. apply inside_iff in Hin.
      exists r. split; [apply in_range; unfold ROWS; lia |].
      exists c. split; [apply in_range; unfold COLS; lia |].
      exists q. repeat split; assumption.
Qed.

Lemma generated_by_sound (b : Board) (col : Color) (r c : Z) (q : Piece)
    (m : Move) :
  wf b -> generated_by b col r c q m ->
  fst m = (r, c) /\ inside (fst (snd m)) (snd (snd m)) = true.
Proof.
  intros Hwf [Hin [_ [_ [l [El Hm]]]]].
  exact (piece_moves_sound b r c col (kind q) l m Hwf Hin El Hm).
Qed.

(* ================================================================= *)
(** * King lookup and check *)

Lemma king_position_spec (b : Board) (col : Color) :
  wf b ->
  returns (king_position b col)
    (fun o => match o with
              | Some (r, c) =>
                  inside r c = true /\
                  is_piece (cell (grid b) r c) col King = true
              | None =>
                  forall r c, inside r c = true ->
                    is_piece (cell (grid b) r c) col King = false
              end).
Proof.
  intros Hwf. unfold king_position.
  pose (Found := fun v : Square =>
          inside (fst v) (snd v) = true /\
          is_piece (cell (grid b) (fst v) (snd v)) col King = true).
  apply returns_weaken with
    (P := fun o => match o with
                   | Some v => Found v
                   | None => forall r, In r (range ROWS) ->
                       forall c, In c (range COLS) ->
                         is_piece (cell (grid b) r c) col King = false
                   end).
  - apply first_of_returns. intros r Hr.
    apply first_of_returns with
      (Missing := fun c => is_piece (cell (grid b) r c) col King = false).
    intros c Hc.
    assert (Hin : inside r c = true).
    { apply in_range in Hr, Hc. apply inside_iff. unfold ROWS, COLS in *. lia. }
    rewrite grid_get_inside by assumption. cbn [bind].
    destruct (cell (grid b) r c) as [q |] eqn:Hq; cbn [is_piece].
    + destruct (color_eqb (color q) col && kind_eqb (kind q) King) eqn:Ek;
        apply returns_ok.
      * unfold Found. cbn [fst snd]. rewrite Hq. cbn [is_piece]. tauto.
      * reflexivity.
    + apply returns_ok. reflexivity.
  - intros [[r c] |] H.
    + exact H.
    + intros r c Hin. apply inside_iff in Hin.
      apply H; apply in_range; unfold ROWS, COLS; lia.
Qed.

Lemma is_in_check_total (b : Board) (col : Color) :
  wf b -> exists a, is_in_check b col = Ok a.
Proof.
  intros Hwf. unfold is_in_check.
  destruct (king_position_spec b col Hwf) as [o [E Ho]]. rewrite E. cbn [bind].
  destruct o as [[kr kc] |].
  - destruct Ho as [Hin _]. apply is_square_attacked_total; assumption.
  - exists false. reflexivity.
Qed.

(** ** Check detection reads the grid only *)

Lemma any_of_ext {A : Type} (f g : A -> result bool) (xs : list A) :
  (forall x, f x = g x) -> any_of f xs = any_of g xs.
Proof.
  intros H. induction xs as [| x xs IH]; simpl; [reflexivity |].
  rewrite H, IH. reflexivity.
Qed.

Lemma attack_scan_grid (fuel : nat) (b1 b2 : Board) (rr cc dr dc : Z)
    (by_color : Color) (k1 k2 : Kind) :
  grid b1 = grid b2 ->
  attack_scan fuel b1 rr cc dr dc by_color k1 k2 =
  attack_scan fuel b2 rr cc dr dc by_color k1 k2.
Proof.
  intros H. revert rr cc. induction fuel as [| fuel IH]; intros rr cc; simpl.
  - reflexivity.
  - rewrite H. destruct (inside rr cc); [| reflexivity].
    destruct (grid_get (grid b2) rr cc) as [[q |] | |]; simpl;
      try reflexivity. apply IH.
Qed.

Lemma is_square_attacked_grid (b1 b2 : Board) (r c : Z) (by_color : Color) :
  grid b1 = grid b2 ->
  is_square_attacked b1 r c by_color = is_square_attacked b2 r c by_color.
Proof.
  intros H. unfold is_square_attacked.
  replace (attacked_by_knight b1 r c by_color)
    with (attacked_by_knight b2 r c by_color)
    by (unfold attacked_by_knight; rewrite H; reflexivity).
  replace (attacked_by_pawn b1 r c by_color)
    with (attacked_by_pawn b2 r c by_color)
    by (unfold attacked_by_pawn; rewrite H; reflexivity).
  replace (attacked_by_king b1 r c by_color)
    with (attacked_by_king b2 r c by_color)
    by (unfold attacked_by_king; rewrite H; reflexivity).
  replace (attacked_on_straight b1 r c by_color)
    with (attacked_on_straight b2 r c by_color)
    by (unfold attacked_on_straight; apply any_of_ext; intros d;
        apply attack_scan_grid; symmetry; exact H).
  replace (attacked_on_diagonal b1 r c by_color)
    with (attacked_on_diagonal b2 r c by_color)
    by (unfold attacked_on_diagonal; apply any_of_ext; intros d;
        apply attack_scan_grid; symmetry; exact H).
  reflexivity.
Qed.

Lemma is_in_check_grid (b1 b2 : Board) (col : Color) :
  grid b1 = grid b2 -> is_in_check b1 col = is_in_check b2 col.
Proof.
  intros H. unfold is_in_check.
  replace (king_position b1 col) with (king_position b2 col)
    by (unfold king_position; rewrite H; reflexivity).
  destruct (king_position b2 col) as [[[kr kc] |] | |]; cbn [bind].
  - apply is_square_attacked_grid, H.
  - reflexivity.
  - reflexivity.
  - reflexivity.
Qed.

(* ================================================================= *)
(** * The legality filter *)

Lemma simulate_spec (b : Board) (sr sc dr dc : Z) :
  wf b -> inside sr sc = true -> inside dr dc = true ->
  returns (simulate b (sr, sc) (dr, dc))
    (fun b2 =>
       wf b2 /\ to_move b2 = to_move b /\
       forall r c, inside r c = true ->
         cell (grid b2) r c =
           if (r =? dr) && (c =? dc) && promotes (cell (grid b) sr sc) dr
           then landed (cell (grid b) sr sc) dr
           else if (r =? sr) && (c =? sc) then None
           else if (r =? dr) && (c =? dc) then cell (grid b) sr sc
           else cell (grid b) r c).
Proof.
  intros Hwf Hs Hd. unfold simulate. rewrite copy_eq.
  apply returns_bind with (1 := make_move_no_checks_spec b sr sc dr dc Hwf Hs Hd).
  intros b1 [Hwf1 [Ht1 Hc1]]. cbn [fst snd].
  rewrite grid_get_inside by assumption. cbn [bind].
  destruct (cell (grid b) sr sc) as [q |] eqn:Hq.
  - destruct (promotes (Some q) dr) eqn:Hp.
    + destruct (grid_set_ok (grid b1) dr dc (Some (mkPiece (color q) Queen)) Hwf1 Hd)
        as [g [Eg [Hwfg Hg]]].
      rewrite Eg. cbn [bind]. apply returns_ok.
      split; [exact Hwfg |]. split; [exact Ht1 |].
      intros r c Hin. cbn [grid]. rewrite Hg by assumption.
      destruct ((r =? dr) && (c =? dc)) eqn:E; cbn [andb landed].
      * rewrite Hp. reflexivity.
      * rewrite Hc1 by assumption. rewrite E. reflexivity.
    + apply returns_ok. split; [exact Hwf1 |]. split; [exact Ht1 |].
      intros r c Hin. rewrite andb_false_r. apply Hc1, Hin.
  - apply returns_ok. split; [exact Hwf1 |]. split; [exact Ht1 |].
    intros r c Hin. cbn [promotes]. rewrite andb_false_r. apply Hc1, Hin.
Qed.

(** [ChessGame._make_move] builds the grid of the simulation and flips
    the side to move. *)
Lemma make_move_simulate (b : Board) (src dst : Square) (b2 : Board) :
  simulate b src dst = Ok b2 ->
  _make_move b src dst =
    Ok (mkBoard (grid b2) (if color_eqb (to_move b2) WHITE then BLACK else WHITE)).
Proof.
  unfold simulate, _make_move. rewrite copy_eq.
  destruct (_make_move_no_checks b src dst) as [b1 | |]; cbn [bind];
    try discriminate.
  destruct (grid_get (grid b) (fst src) (snd src)) as [piece | |]; cbn [bind];
    try discriminate.
  destruct piece as [q |].
  - destruct (promotes (Some q) (fst dst)).
    + destruct (grid_set (grid b1) (fst dst) (snd dst)
                  (Some (mkPiece (color q) Queen))) as [g | |];
        cbn [bind]; try discriminate.
      intros E. injection E as <-. reflexivity.
    + cbn [bind]. intros E. injection E as <-. reflexivity.
  - cbn [bind]. intros E. injection E as <-. reflexivity.
Qed.

Lemma generate_legal_moves_spec (b : Board) (col : Color) :
  wf b ->
  exists pseudo legal,
    generate_pseudo_legal_moves b col = Ok pseudo /\
    generate_legal_moves b col = Ok legal /\
    forall m, In m legal <->
      In m pseudo /\
      exists b2, simulate b (fst m) (snd m) = Ok b2 /\
                 is_in_check b2 col = Ok false.
Proof.
  intros Hwf.
  destruct (generate_pseudo_legal_moves_spec b col Hwf) as [pseudo [Ep Hp]].
  assert (H : returns
            (collect (fun m =>
               b2 <- simulate b (fst m) (snd m) ;;
               chk <- is_in_check b2 col ;;
               if negb chk then Ok [m] else Ok []) pseudo)
            (fun legal => forall y, In y legal <->
               exists m, In m pseudo /\
                 (y = m /\ exists b2, simulate b (fst m) (snd m) = Ok b2 /\
                                      is_in_check b2 col = Ok false))).
  { apply collect_returns. intros m Hm.
    apply Hp in Hm. destruct Hm as [r [c [q Hgen]]].
    destruct (generated_by_sound b col r c q m Hwf Hgen) as [Hsrc Hdst].
    destruct Hgen as [Hin _].
    destruct m as [[sr sc] [dr dc]]. cbn [fst snd] in *.
    injection Hsrc as -> ->.
    destruct (simulate_spec b r c dr dc Hwf Hin Hdst) as [b2 [E2 [Hwf2 _]]].
    rewrite E2. cbn [bind].
    destruct (is_in_check_total b2 col Hwf2) as [chk Ec]. rewrite Ec. cbn [bind].
    apply returns_one_or_none. intros y. split.
    - intros [-> [b2' [E2' Ec']]]. injection E2' as <-.
      rewrite Ec in Ec'. injection Ec' as ->. split; reflexivity.
    - intros [Hchk ->]. split; [reflexivity |]. exists b2.
      split; [reflexivity |]. rewrite Ec.
      destruct chk; [discriminate | reflexivity]. }
  destruct H as [legal [El Hl]].
  exists pseudo, legal. split; [exact Ep |]. split.
  - unfold generate_legal_moves. rewrite Ep. cbn [bind]. exact El.
  - intros m. rewrite Hl. split.
    + intros [m' [Hm' [-> Hb]]]. split; assumption.
    + intros [Hm Hb]. exists m. repeat split; assumption.
Qed.

(** Generated moves leave their square. *)
Lemma piece_moves_off_square (b : Board) (r c : Z) (col : Color) (k : Kind)
    (l : list Move) (m : Move) :
  wf b -> inside r c = true -> piece_moves b r c col k = Ok l -> In m l ->
  snd m <> (r, c).
Proof.
  assert (Hray : forall d j, In d queen_deltas ->
            (step_row (r + fst d) (fst d) j, step_row (c + snd d) (snd d) j)
            <> (r, c)).
  { intros d j Hd Heq. unfold step_row in Heq. injection Heq as H1 H2.
    simpl in Hd.
    repeat (destruct Hd as [<- | Hd]; [cbn [fst snd] in *; lia |]). destruct Hd. }
  intros Hwf Hin E Hm. destruct k; simpl in E.
  - apply (returns_inv _ _ _ (king_moves_spec b r c col Hwf) E) in Hm.
    destruct Hm as [dr [_ [dc [_ [Hne [-> _]]]]]]. cbn [snd].
    intros Heq. injection Heq as H1 H2. apply Hne. f_equal; lia.
  - apply (returns_inv _ _ _
             (ray_moves_spec b r c col _ Hwf Hin (incl_refl queen_deltas)) E) in Hm.
    destruct Hm as [d [Hd [j [-> _]]]]. apply Hray, Hd.
  - apply (returns_inv _ _ _ (ray_moves_spec b r c col _ Hwf Hin rook_incl) E) in Hm.
    destruct Hm as [d [Hd [j [-> _]]]]. apply Hray, rook_incl, Hd.
  - apply (returns_inv _ _ _ (ray_moves_spec b r c col _ Hwf Hin bishop_incl) E) in Hm.
    destruct Hm as [d [Hd [j [-> _]]]]. apply Hray, bishop_incl, Hd.
  - apply (returns_inv _ _ _ (knight_moves_spec b r c col Hwf) E) in Hm.
    destruct Hm as [d [Hd [-> _]]]. cbn [snd]. intros Heq.
    injection Heq as H1 H2. simpl in Hd.
    repeat (destruct Hd as [<- | Hd]; [cbn [fst snd] in *; lia |]). destruct Hd.
  - apply (returns_inv _ _ _ (pawn_moves_spec b r c col Hwf) E) in Hm.
    assert (Hdir : pawn_dir col <> 0) by (destruct col; discriminate).
    destruct Hm as [[_ [_ [-> | [-> _]]]] | [dc [_ [-> _]]]]; cbn [snd];
      intros Heq; assert (H1 := f_equal fst Heq); cbn [fst] in H1; lia.
Qed.

(* ================================================================= *)
(** * Properties of the engine *)

(** ** Starting position *)

(** C3: on the position built by [Board()], [generate_legal_moves(WHITE)]
    returns exactly 20 moves, namely 8 single pawn steps, 8 double pawn
    steps and 4 knight moves. *)
Theorem start_position_white_moves :
  exists b ms,
    Board_init = Ok b /\
    generate_legal_moves b WHITE = Ok ms /\
    ms = [((6, 0), (5, 0)); ((6, 0), (4, 0)); ((6, 1), (5, 1)); ((6, 1), (4, 1));
          ((6, 2), (5, 2)); ((6, 2), (4, 2)); ((6, 3), (5, 3)); ((6, 3), (4, 3));
          ((6, 4), (5, 4)); ((6, 4), (4, 4)); ((6, 5), (5, 5)); ((6, 5), (4, 5));
          ((6, 6), (5, 6)); ((6, 6), (4, 6)); ((6, 7), (5, 7)); ((6, 7), (4, 7));
          ((7, 1), (5, 0)); ((7, 1), (5, 2)); ((7, 6), (5, 5)); ((7, 6), (5, 7))] /\
    length ms = 20%nat /\
    length (filter (is_pawn_push (grid b) 1) ms) = 8%nat /\
    length (filter (is_pawn_push (grid b) 2) ms) = 8%nat /\
    length (filter (is_knight_move (grid b)) ms) = 4%nat.
Proof.
  eexists. eexists. split; [vm_compute; reflexivity |].
  split; [vm_compute; reflexivity |].
  split; [reflexivity |]. repeat split; vm_compute; reflexivity.
Qed.

(** ** Bounds and totality of generation *)

(** C10: on every 8x8 board both generators end normally, so no grid
    access of the generation leaves the board, and every move they return
    has its source and its destination on the board; the pawn rule, with
    its unguarded read of the double-step square, ends normally from any
    origin. *)
Theorem generated_moves_in_bounds (b : Board) (col : Color) :
  wf b ->
  (exists ms, generate_pseudo_legal_moves b col = Ok ms /\
     forall src dst, In (src, dst) ms ->
       inside (fst src) (snd src) = true /\ inside (fst dst) (snd dst) = true) /\
  (exists ms, generate_legal_moves b col = Ok ms /\
     forall src dst, In (src, dst) ms ->
       inside (fst src) (snd src) = true /\ inside (fst dst) (snd dst) = true) /\
  (forall r c, exists ms, _pawn_moves b r c col = Ok ms).
Proof.
  intros Hwf.
  destruct (generate_legal_moves_spec b col Hwf) as [pseudo [legal [Ep [El Hl]]]].
  assert (Hb : forall src dst, In (src, dst) pseudo ->
            inside (fst src) (snd src) = true /\
            inside (fst dst) (snd dst) = true).
  { intros src dst Hm.
    apply (returns_inv _ _ _ (generate_pseudo_legal_moves_spec b col Hwf) Ep) in Hm.
    destruct Hm as [r [c [q Hgen]]].
    destruct (generated_by_sound b col r c q _ Hwf Hgen) as [Hsrc Hdst].
    destruct Hgen as [Hin _]. cbn [fst snd] in *. subst src. split; assumption. }
  split; [exists pseudo; split; assumption |].
  split.
  - exists legal. split; [exact El |]. intros src dst Hm.
    apply Hl in Hm. apply Hb, Hm.
  - intros r c. exact (returns_total _ _ (pawn_moves_spec b r c col Hwf)).
Qed.

Lemma generated_moves_in_bounds_witness :
  wf start_board /\
  (exists ms, generate_pseudo_legal_moves start_board BLACK = Ok ms /\
     forall src dst, In (src, dst) ms ->
       inside (fst src) (snd src) = true /\ inside (fst dst) (snd dst) = true) /\
  (exists ms, generate_legal_moves start_board BLACK = Ok ms /\
     forall src dst, In (src, dst) ms ->
       inside (fst src) (snd src) = true /\ inside (fst dst) (snd dst) = true) /\
  (forall r c, exists ms, _pawn_moves start_board r c BLACK = Ok ms).
Proof.
  split; [prove_wf |].
  apply (generated_moves_in_bounds start_board BLACK). prove_wf.
Defined.

(** ** Legal moves never leave the mover in check *)

(** C4: every move returned by [generate_legal_moves(col)] can be
    applied by [ChessGame._make_move] (which promotes exactly as the
    legality simulation does), and on the resulting board
    [is_in_check(col)] is false. *)
Theorem legal_moves_avoid_check (b : Board) (col : Color) :
  wf b ->
  exists legal,
    generate_legal_moves b col = Ok legal /\
    forall m, In m legal ->
      exists b', _make_move b (fst m) (snd m) = Ok b' /\
                 is_in_check b' col = Ok false.
Proof.
  intros Hwf.
  destruct (generate_legal_moves_spec b col Hwf) as [pseudo [legal [_ [El Hl]]]].
  exists legal. split; [exact El |]. intros m Hm.
  apply Hl in Hm. destruct Hm as [_ [b2 [E2 Hc]]].
  eexists. split; [apply make_move_simulate, E2 |].
  rewrite <- Hc. apply is_in_check_grid. reflexivity.
Qed.

Lemma legal_moves_avoid_check_witness :
  wf start_board /\
  exists legal,
    generate_legal_moves start_board WHITE = Ok legal /\
    forall m, In m legal ->
      exists b', _make_move start_board (fst m) (snd m) = Ok b' /\
                 is_in_check b' WHITE = Ok false.
Proof.
  split; [prove_wf |].
  apply (legal_moves_avoid_check start_board WHITE). prove_wf.
Defined.

(** ** Positions without a king *)

Lemma king_position_none (b : Board) (col : Color) :
  wf b -> (king_position b col = Ok None <-> no_king (grid b) col).
Proof.
  intros Hwf. destruct (king_position_spec b col Hwf) as [o [E Ho]].
  rewrite E. split.
  - intros Eo. injection Eo as ->. exact Ho.
  - intros Hno. destruct o as [[r c] |]; [| reflexivity].
    destruct Ho as [Hin Hk]. rewrite (Hno r c Hin) in Hk. discriminate.
Qed.

(** C5: on a board without a king of colour [col], [is_in_check(col)]
    returns false and raises nothing; and in [generate_legal_moves] every
    pseudo-legal move whose simulated successor has no king of the mover
    is kept as legal. *)
Theorem absent_king_never_blocks (b : Board) (col : Color) :
  wf b ->
  (no_king (grid b) col -> is_in_check b col = Ok false) /\
  exists pseudo legal,
    generate_pseudo_legal_moves b col = Ok pseudo /\
    generate_legal_moves b col = Ok legal /\
    forall m, In m pseudo ->
      exists b2, simulate b (fst m) (snd m) = Ok b2 /\
        (no_king (grid b2) col -> In m legal).
Proof.
  intros Hwf. split.
  - intros Hno. apply (king_position_none b col Hwf) in Hno.
    unfold is_in_check. rewrite Hno. reflexivity.
  - destruct (generate_legal_moves_spec b col Hwf) as [pseudo [legal [Ep [El Hl]]]].
    exists pseudo, legal. split; [exact Ep |]. split; [exact El |].
    intros m Hm.
    pose proof Hm as Hgen.
    apply (returns_inv _ _ _ (generate_pseudo_legal_moves_spec b col Hwf) Ep)
      in Hgen.
    destruct Hgen as [r [c [q Hgen]]].
    destruct (generated_by_sound b col r c q m Hwf Hgen) as [Hsrc Hdst].
    destruct Hgen as [Hin _].
    destruct m as [[sr sc] [dr dc]]. cbn [fst snd] in *.
    injection Hsrc as -> ->.
    destruct (simulate_spec b r c dr dc Hwf Hin Hdst) as [b2 [E2 [Hwf2 _]]].
    exists b2. split; [exact E2 |]. intros Hno.
    apply Hl. split; [exact Hm |]. exists b2. split; [exact E2 |].
    apply (king_position_none b2 col Hwf2) in Hno.
    unfold is_in_check. rewrite Hno. reflexivity.
Qed.

Lemma absent_king_never_blocks_witness :
  wf kingless_board /\
  (no_king (grid kingless_board) WHITE -> is_in_check kingless_board WHITE = Ok false) /\
  exists pseudo legal,
    generate_pseudo_legal_moves kingless_board WHITE = Ok pseudo /\
    generate_legal_moves kingless_board WHITE = Ok legal /\
    forall m, In m pseudo ->
      exists b2, simulate kingless_board (fst m) (snd m) = Ok b2 /\
        (no_king (grid b2) WHITE -> In m legal).
Proof.
  split; [prove_wf |].
  apply (absent_king_never_blocks kingless_board WHITE). prove_wf.
Defined.

(** On that position the absent king is not an error and blocks nothing. *)
Example kingless_board_moves :
  no_king (grid kingless_board) WHITE /\
  is_in_check kingless_board WHITE = Ok false /\
  generate_legal_moves kingless_board WHITE =
    Ok [((6, 4), (5, 4)); ((6, 4), (4, 4)); ((6, 4), (5, 3))].
Proof.
  split; [| split; reflexivity].
  apply king_position_none; [prove_wf | reflexivity].
Qed.

(** ** Promotion inside the legality filter *)

(** C6: for every pseudo-legal candidate of [generate_legal_moves], the
    check test runs on the clone [simulate b src dst]; on that clone the
    destination holds a queen of the mover's colour when the moved piece
    is a pawn reaching row 0 (White) or row 7 (Black), and the moved
    piece itself in every other case; the source is empty and every other
    square is as on the board. *)
Theorem legality_simulation_promotes (b : Board) (col : Color) :
  wf b ->
  exists pseudo legal,
    generate_pseudo_legal_moves b col = Ok pseudo /\
    generate_legal_moves b col = Ok legal /\
    forall sr sc dr dc, In ((sr, sc), (dr, dc)) pseudo ->
      exists q b2,
        cell (grid b) sr sc = Some q /\ color q = col /\
        simulate b (sr, sc) (dr, dc) = Ok b2 /\
        (In ((sr, sc), (dr, dc)) legal <-> is_in_check b2 col = Ok false) /\
        cell (grid b2) dr dc =
          (if kind_eqb (kind q) Pawn && (dr =? last_row col)
           then Some (mkPiece col Queen) else Some q) /\
        cell (grid b2) sr sc = None /\
        (forall r c, inside r c = true -> (r, c) <> (sr, sc) -> (r, c) <> (dr, dc) ->
           cell (grid b2) r c = cell (grid b) r c).
Proof.
  intros Hwf.
  destruct (generate_legal_moves_spec b col Hwf) as [pseudo [legal [Ep [El Hl]]]].
  exists pseudo, legal. split; [exact Ep |]. split; [exact El |].
  intros sr sc dr dc Hm.
  pose proof Hm as Hgen.
  apply (returns_inv _ _ _ (generate_pseudo_legal_moves_spec b col Hwf) Ep) in Hgen.
  destruct Hgen as [r [c [q Hgen]]].
  destruct (generated_by_sound b col r c q _ Hwf Hgen) as [Hsrc Hdst].
  destruct Hgen as [Hin [Hq [Hcol [l [E Hml]]]]].
  pose proof (piece_moves_off_square b r c col (kind q) l _ Hwf Hin E Hml) as Hoff.
  cbn [fst snd] in *. injection Hsrc as -> ->.
  destruct (simulate_spec b r c dr dc Hwf Hin Hdst) as [b2 [E2 [Hwf2 [_ Hc2]]]].
  exists q, b2. split; [exact Hq |]. split; [exact Hcol |]. split; [exact E2 |].
  assert (Hne : (dr =? r) && (dc =? c) = false).
  { destruct ((dr =? r) && (dc =? c)) eqn:Ee; [| reflexivity].
    exfalso. apply Hoff. f_equal; lia. }
  assert (Hpr : promotes (Some q) dr = kind_eqb (kind q) Pawn && (dr =? last_row col)).
  { unfold promotes, last_row. rewrite Hcol.
    destruct col; cbn [color_eqb andb orb]; rewrite ?orb_false_r; reflexivity. }
  split; [| split; [| split]].
  - split.
    + intros Hlegal. apply Hl in Hlegal. destruct Hlegal as [_ [b2' [E2' Hc]]].
      cbn [fst snd] in E2'. rewrite E2 in E2'. injection E2' as <-. exact Hc.
    + intros Hc. apply Hl. split; [exact Hm |]. exists b2. split; assumption.
  - rewrite Hc2 by assumption. rewrite !Z.eqb_refl, Hq. cbn [andb landed].
    rewrite Hpr. destruct (kind_eqb (kind q) Pawn && (dr =? last_row col)).
    + rewrite Hcol. reflexivity.
    + rewrite Hne. reflexivity.
  - rewrite Hc2 by assumption. rewrite !Z.eqb_refl.
    rewrite Z.eqb_sym, (Z.eqb_sym c dc), Hne. reflexivity.
  - intros r' c' Hin' Hns Hnd. rewrite Hc2 by assumption.
    assert (E1 : (r' =? dr) && (c' =? dc) = false).
    { destruct ((r' =? dr) && (c' =? dc)) eqn:Ee; [| reflexivity].
      exfalso. apply Hnd. f_equal; lia. }
    assert (E3 : (r' =? r) && (c' =? c) = false).
    { destruct ((r' =? r) && (c' =? c)) eqn:Ee; [| reflexivity].
      exfalso. apply Hns. f_equal; lia. }
    rewrite E1, E3. reflexivity.
Qed.

Lemma legality_simulation_promotes_witness :
  wf promotion_board /\
  exists pseudo legal,
    generate_pseudo_legal_moves promotion_board WHITE = Ok pseudo /\
    generate_legal_moves promotion_board WHITE = Ok legal /\
    forall sr sc dr dc, In ((sr, sc), (dr, dc)) pseudo ->
      exists q b2,
        cell (grid promotion_board) sr sc = Some q /\ color q = WHITE /\
        simulate promotion_board (sr, sc) (dr, dc) = Ok b2 /\
        (In ((sr, sc), (dr, dc)) legal <-> is_in_check b2 WHITE = Ok false) /\
        cell (grid b2) dr dc =
          (if kind_eqb (kind q) Pawn && (dr =? last_row WHITE)
           then Some (mkPiece WHITE Queen) else Some q) /\
        cell (grid b2) sr sc = None /\
        (forall r c, inside r c = true -> (r, c) <> (sr, sc) -> (r, c) <> (dr, dc) ->
           cell (grid b2) r c = cell (grid promotion_board) r c).
Proof.
  split; [prove_wf |].
  apply (legality_simulation_promotes promotion_board WHITE). prove_wf.
Defined.

(** On that position the pawn's step to row 0 is a candidate and the
    clone holds a white queen on its destination. *)
Example promotion_board_clone :
  exists pseudo b2,
    generate_pseudo_legal_moves promotion_board WHITE = Ok pseudo /\
    In ((1, 0), (0, 0)) pseudo /\
    simulate promotion_board (1, 0) (0, 0) = Ok b2 /\
    cell (grid b2) 0 0 = Some (mkPiece WHITE Queen).
Proof.
  eexists. eexists. split; [vm_compute; reflexivity |].
  split; [simpl; tauto |]. split; [vm_compute; reflexivity |]. reflexivity.
Qed.

(** ** King moves *)

Lemma adjacent_offsets (r c nr nc : Z) :
  adjacent r c nr nc <->
  exists dr, In dr [-1; 0; 1] /\ exists dc, In dc [-1; 0; 1] /\
    (dr, dc) <> (0, 0) /\ nr = r + dr /\ nc = c + dc.
Proof.
  unfold adjacent. split.
  - intros [Hr [Hc Hne]].
    exists (nr - r). split; [simpl; lia |].
    exists (nc - c). split; [simpl; lia |].
    split; [| lia]. intros Heq. injection Heq as H1 H2.
    apply Hne. f_equal; lia.
  - intros [dr [Hdr [dc [Hdc [Hne [-> ->]]]]]]. simpl in Hdr, Hdc.
    split; [lia |]. split; [lia |].
    intros Heq. injection Heq as H1 H2. apply Hne. f_equal; lia.
Qed.

(** What [_king_moves] computes, relative to the attack routine: exactly
    the moves from the king's square to the neighbouring squares that are
    on the board, empty or held by an opposing piece, and for which
    [is_square_attacked] answers false for the opponent. *)
Lemma king_moves_exact (b : Board) (r c : Z) (col : Color) :
  wf b ->
  exists ms,
    _king_moves b r c col = Ok ms /\
    forall src nr nc, In (src, (nr, nc)) ms <->
      src = (r, c) /\ adjacent r c nr nc /\ inside nr nc = true /\
      free_for (cell (grid b) nr nc) col = true /\
      is_square_attacked b nr nc (other col) = Ok false.
Proof.
  intros Hwf. destruct (king_moves_spec b r c col Hwf) as [ms [E H]].
  exists ms. split; [exact E |]. intros src nr nc.
  rewrite H, adjacent_offsets. split.
  - intros [dr [Hdr [dc [Hdc [Hne [Hm [Hin [Hf Ha]]]]]]]].
    injection Hm as -> -> ->. split; [reflexivity |].
    split; [| repeat split; assumption].
    exists dr. split; [exact Hdr |]. exists dc. repeat split; assumption.
  - intros [-> [[dr [Hdr [dc [Hdc [Hne [-> ->]]]]]] [Hin [Hf Ha]]]].
    exists dr. split; [exact Hdr |]. exists dc. repeat split; assumption.
Qed.

Lemma king_moves_exact_witness :
  wf king_board /\
  exists ms,
    _king_moves king_board 4 4 WHITE = Ok ms /\
    forall src nr nc, In (src, (nr, nc)) ms <->
      src = (4, 4) /\ adjacent 4 4 nr nc /\ inside nr nc = true /\
      free_for (cell (grid king_board) nr nc) WHITE = true /\
      is_square_attacked king_board nr nc (other WHITE) = Ok false.
Proof.
  split; [prove_wf |].
  apply (king_moves_exact king_board 4 4 WHITE). prove_wf.
Defined.

(** On that position the king may take the loose knight but not the
    defended rook. *)
Example king_board_moves :
  _king_moves king_board 4 4 WHITE =
    Ok [((4, 4), (3, 3)); ((4, 4), (4, 3)); ((4, 4), (5, 3)); ((4, 4), (5, 4))].
Proof. reflexivity. Qed.

(** C8, at the failing input: on [pawn_guard_board] the white king on
    [(4, 4)] faces black pawns on [(2, 3)] and [(4, 2)].  [_king_moves]
    returns, and [generate_legal_moves] keeps, the steps onto [(3, 4)] and
    [(5, 3)]; once the king stands there the pawn on [(2, 3)], resp.
    [(4, 2)], has the pseudo-legal capture onto the king's square.  The
    step onto [(3, 3)], which no black piece can reach, is withheld.  The
    king rule inherits the reversed row of the pawn loop of
    [is_square_attacked]. *)
Theorem king_steps_into_pawn_attack :
  exists ms legal,
    _king_moves pawn_guard_board 4 4 WHITE = Ok ms /\
    generate_legal_moves pawn_guard_board WHITE = Ok legal /\
    In ((4, 4), (3, 4)) ms /\ In ((4, 4), (3, 4)) legal /\
    In ((4, 4), (5, 3)) ms /\ In ((4, 4), (5, 3)) legal /\
    ~ In ((4, 4), (3, 3)) ms /\
    (exists b' pseudo,
       _make_move pawn_guard_board (4, 4) (3, 4) = Ok b' /\
       generate_pseudo_legal_moves b' BLACK = Ok pseudo /\
       cell (grid b') 2 3 = Some (mkPiece BLACK Pawn) /\
       In ((2, 3), (3, 4)) pseudo) /\
    (exists b' pseudo,
       _make_move pawn_guard_board (4, 4) (5, 3) = Ok b' /\
       generate_pseudo_legal_moves b' BLACK = Ok pseudo /\
       cell (grid b') 4 2 = Some (mkPiece BLACK Pawn) /\
       In ((4, 2), (5, 3)) pseudo) /\
    (exists b' pseudo,
       _make_move pawn_guard_board (4, 4) (3, 3) = Ok b' /\
       generate_pseudo_legal_moves b' BLACK = Ok pseudo /\
       forall src, ~ In (src, (3, 3)) pseudo).
Proof.
  eexists. eexists.
  split; [vm_compute; reflexivity |]. split; [vm_compute; reflexivity |].
  split; [simpl; tauto |]. split; [simpl; tauto |].
  split; [simpl; tauto |]. split; [simpl; tauto |].
  split.
  { simpl. intros H.
    repeat (destruct H as [H | H]; [discriminate H |]). exact H. }
  split; [| split].
  - eexists. eexists. split; [vm_compute; reflexivity |].
    split; [vm_compute; reflexivity |]. split; [reflexivity | simpl; tauto].
  - eexists. eexists. split; [vm_compute; reflexivity |].
    split; [vm_compute; reflexivity |]. split; [reflexivity | simpl; tauto].
  - eexists. eexists. split; [vm_compute; reflexivity |].
    split; [vm_compute; reflexivity |].
    intros src H. simpl in H.
    repeat (destruct H as [H | H]; [discriminate H |]). exact H.
Qed.

(** ** Lines between two squares *)

Lemma between_inside (r c : Z) (d : Z * Z) (k j : Z) :
  In d queen_deltas -> inside r c = true ->
  inside (r + k * fst d) (c + k * snd d) = true -> 0 <= j <= k ->
  inside (r + j * fst d) (c + j * snd d) = true.
Proof.
  intros Hd Hin Hk Hj. rewrite inside_iff in *. simpl in Hd.
  repeat (destruct Hd as [<- | Hd]; [cbn [fst snd] in *; lia |]). destruct Hd.
Qed.

Lemma same_target (r c : Z) (d d' : Z * Z) (k k' : Z) :
  In d queen_deltas -> In d' queen_deltas -> 1 <= k -> 1 <= k' ->
  r + k * fst d = r + k' * fst d' -> c + k * snd d = c + k' * snd d' ->
  d = d' /\ k = k'.
Proof.
  intros Hd Hd' Hk Hk' Hr Hc. simpl in Hd, Hd'.
  repeat (destruct Hd as [<- | Hd]);
    repeat (destruct Hd' as [<- | Hd']);
    cbn [fst snd] in *;
    try contradiction;
    first [split; [reflexivity | lia] | exfalso; lia].
Qed.

Lemma step_row_Z (r dr k : Z) :
  1 <= k -> step_row (r + dr) dr (Z.to_nat (k - 1)) = r + k * dr.
Proof. intros Hk. unfold step_row. rewrite Z2Nat.id by lia. ring. Qed.

Lemma clear_run_open_line (g : Grid) (r c : Z) (d : Z * Z) (k : Z) :
  In d queen_deltas -> inside r c = true -> 1 <= k ->
  inside (r + k * fst d) (c + k * snd d) = true ->
  (clear_run g (r + fst d) (c + snd d) (fst d) (snd d) (Z.to_nat (k - 1)) <->
   open_line g r c (fst d) (snd d) k).
Proof.
  intros Hd Hin Hk Ht. split.
  - intros H j Hj. destruct (H (Z.to_nat (j - 1))) as [_ Hc]; [lia |].
    rewrite !step_row_Z in Hc by lia. exact Hc.
  - intros H i Hi.
    replace i with (Z.to_nat ((Z.of_nat i + 1) - 1)) by lia.
    rewrite !step_row_Z by lia. split.
    + apply between_inside with (k := k); try assumption. lia.
    + apply H. lia.
Qed.

Lemma ray_reaches_line (g : Grid) (col : Color) (r c : Z) (d : Z * Z) (k : Z) :
  In d queen_deltas -> inside r c = true -> 1 <= k ->
  (ray_reaches g col (r + fst d) (c + snd d) (fst d) (snd d) (Z.to_nat (k - 1)) <->
   inside (r + k * fst d) (c + k * snd d) = true /\
   open_line g r c (fst d) (snd d) k /\
   free_for (cell g (r + k * fst d) (c + k * snd d)) col = true).
Proof.
  intros Hd Hin Hk. unfold ray_reaches. rewrite !step_row_Z by lia. split.
  - intros [Hrun [Ht Hf]]. split; [exact Ht |]. split; [| exact Hf].
    apply clear_run_open_line; assumption.
  - intros [Ht [Hline Hf]]. split; [| split; assumption].
    apply clear_run_open_line; assumption.
Qed.

Lemma first_piece_line (g : Grid) (r c : Z) (d : Z * Z) (k : Z) (q : Piece) :
  In d queen_deltas -> inside r c = true -> 1 <= k ->
  (first_piece g (r + fst d) (c + snd d) (fst d) (snd d) (Z.to_nat (k - 1)) q <->
   inside (r + k * fst d) (c + k * snd d) = true /\
   open_line g r c (fst d) (snd d) k /\
   cell g (r + k * fst d) (c + k * snd d) = Some q).
Proof.
  intros Hd Hin Hk. unfold first_piece. rewrite !step_row_Z by lia. split.
  - intros [Hrun [Ht Hf]]. split; [exact Ht |]. split; [| exact Hf].
    apply clear_run_open_line; assumption.
  - intros [Ht [Hline Hf]]. split; [| split; assumption].
    apply clear_run_open_line; assumption.
Qed.

(** [_ray_moves] in terms of lines. *)
Lemma ray_moves_line_spec (b : Board) (r c : Z) (col : Color)
    (deltas : list (Z * Z)) :
  wf b -> inside r c = true -> incl deltas queen_deltas ->
  returns (_ray_moves b r c col deltas)
    (fun ms => forall m, In m ms <->
       exists d k, In d deltas /\ 1 <= k /\
         m = ((r, c), (r + k * fst d, c + k * snd d)) /\
         inside (r + k * fst d) (c + k * snd d) = true /\
         open_line (grid b) r c (fst d) (snd d) k /\
         free_for (cell (grid b) (r + k * fst d) (c + k * snd d)) col = true).
Proof.
  intros Hwf Hin Hsub.
  apply returns_weaken with (1 := ray_moves_spec b r c col deltas Hwf Hin Hsub).
  intros ms Hms m. rewrite Hms. split.
  - intros [d [Hd [n [-> Hr]]]]. exists d, (Z.of_nat n + 1).
    split; [exact Hd |]. split; [lia |].
    split; [unfold step_row; do 2 f_equal; ring |].
    rewrite <- (Nat2Z.id n) in Hr.
    replace (Z.of_nat n) with ((Z.of_nat n + 1) - 1) in Hr by lia.
    apply ray_reaches_line in Hr; try assumption; [apply Hsub, Hd | lia].
  - intros [d [k [Hd [Hk [-> Hr]]]]]. exists d. split; [exact Hd |].
    exists (Z.to_nat (k - 1)). rewrite !step_row_Z by lia.
    split; [reflexivity |].
    apply ray_reaches_line; try assumption. apply Hsub, Hd.
Qed.

(** ** Sliding pieces *)

Lemma slider_moves (b : Board) (r c : Z) (col : Color) (k : Kind) :
  is_slider k -> piece_moves b r c col k = _ray_moves b r c col (slider_deltas k).
Proof. intros [-> | [-> | ->]]; reflexivity. Qed.

Lemma slider_deltas_incl (k : Kind) : incl (slider_deltas k) queen_deltas.
Proof. destruct k; intros d; simpl; tauto. Qed.

Lemma slider_deltas_NoDup (k : Kind) : NoDup (slider_deltas k).
Proof.
  destruct k; simpl; repeat constructor; simpl;
    intros H; repeat (destruct H as [H | H]; [discriminate |]); exact H.
Qed.

Lemma collect_NoDup {A B : Type} (f : A -> result (list B))
    (P : A -> B -> Prop) (xs : list A) :
  NoDup xs ->
  (forall x, In x xs ->
     returns (f x) (fun ys => NoDup ys /\ forall y, In y ys -> P x y)) ->
  (forall x x' y, P x y -> P x' y -> x = x') ->
  returns (collect f xs)
          (fun zs => NoDup zs /\ forall y, In y zs -> exists x, In x xs /\ P x y).
Proof.
  intros Hnd Hf Huniq. induction Hnd as [| x xs Hx Hnd IH]; simpl.
  - apply returns_ok. split; [constructor | intros y []].
  - apply returns_bind with (1 := Hf x (or_introl eq_refl)).
    intros ys [Hys HP].
    apply returns_bind with (1 := IH (fun x' Hx' => Hf x' (or_intror Hx'))).
    intros zs [Hzs HQ]. apply returns_ok. split.
    + apply NoDup_app; try assumption.
      intros y Hy Hz. destruct (HQ y Hz) as [x' [Hx' HP']].
      apply Hx. rewrite (Huniq x x' y (HP y Hy) HP'). exact Hx'.
    + intros y Hy. apply in_app_iff in Hy. destruct Hy as [Hy | Hy].
      * exists x. split; [left; reflexivity | apply HP, Hy].
      * destruct (HQ y Hy) as [x' [Hx' HP']]. exists x'.
        split; [right; exact Hx' | exact HP'].
Qed.

Lemma ray_scan_NoDup (fuel : nat) (b : Board) (r c : Z) (col : Color)
    (nr nc dr dc : Z) :
  wf b -> fuel_covers fuel nr nc dr dc -> (dr, dc) <> (0, 0) ->
  returns (ray_scan fuel b r c col nr nc dr dc)
    (fun ms => NoDup ms /\
       forall m, In m ms ->
         exists k : nat, m = ((r, c), (step_row nr dr k, step_row nc dc k))).
Proof.
  intros Hwf Hfuel Hne.
  destruct (ray_scan_spec fuel b r c col nr nc dr dc Hwf Hfuel) as [ms [E Hms]].
  exists ms. split; [exact E |]. split.
  - clear Hms. revert nr nc ms Hfuel E.
    induction fuel as [| fuel IH]; intros nr nc ms Hfuel E.
    + destruct Hfuel as [H0 _]. congruence.
    + simpl in E. destruct (inside nr nc) eqn:Hin.
      * rewrite grid_get_inside in E by assumption. cbn [bind] in E.
        destruct (cell (grid b) nr nc) as [q |].
        -- destruct (negb (color_eqb (color q) col)); injection E as <-;
             repeat constructor. intros [].
        -- pose proof (fuel_covers_step _ _ _ _ _ Hfuel Hin) as Hfuel'.
           destruct (ray_scan_spec fuel b r c col (nr + dr) (nc + dc) dr dc
                       Hwf Hfuel') as [rest [Er Hrest]].
           rewrite Er in E. cbn [bind] in E. injection E as <-.
           constructor; [| apply (IH _ _ _ Hfuel' Er)].
           intros Hm. apply Hrest in Hm. destruct Hm as [k [Hm _]].
           injection Hm as H1 H2. unfold step_row in H1, H2.
           apply Hne.
           assert (Hr : (Z.of_nat k + 1) * dr = 0) by lia.
           assert (Hc : (Z.of_nat k + 1) * dc = 0) by lia.
           apply Z.mul_eq_0 in Hr, Hc. f_equal; lia.
      * injection E as <-. constructor.
  - intros m Hm. apply Hms in Hm. destruct Hm as [k [-> _]].
    exists k. reflexivity.
Qed.

(** C7: for a rook, bishop or queen on [(r, c)] and each of its
    directions, the destination [k] steps away is generated exactly when
    it is on the board, all squares before it on the ray are empty, and
    it is itself empty or holds an opposing piece; nothing else is
    generated and no destination is generated twice.  So a ray stops at
    its first occupied square, which is a destination (once) only when
    the piece on it is an opponent's. *)
Theorem ray_moves_blocked (b : Board) (r c : Z) (col : Color) (kd : Kind) :
  wf b -> inside r c = true -> is_slider kd ->
  exists ms,
    piece_moves b r c col kd = Ok ms /\
    (forall m, In m ms ->
       exists d k, In d (slider_deltas kd) /\ 1 <= k /\
         m = ((r, c), (r + k * fst d, c + k * snd d))) /\
    (forall d k, In d (slider_deltas kd) -> 1 <= k ->
       (In ((r, c), (r + k * fst d, c + k * snd d)) ms <->
        inside (r + k * fst d) (c + k * snd d) = true /\
        open_line (grid b) r c (fst d) (snd d) k /\
        free_for (cell (grid b) (r + k * fst d) (c + k * snd d)) col = true)) /\
    NoDup ms.
Proof.
  intros Hwf Hin Hk. rewrite (slider_moves b r c col kd Hk).
  pose proof (slider_deltas_incl kd) as Hsub.
  destruct (ray_moves_line_spec b r c col _ Hwf Hin Hsub) as [ms [E Hms]].
  exists ms. split; [exact E |]. split; [| split].
  - intros m Hm. apply Hms in Hm.
    destruct Hm as [d [k [Hd [Hk1 [-> _]]]]]. exists d, k. repeat split; assumption.
  - intros d k Hd Hk1. rewrite Hms. split.
    + intros [d' [k' [Hd' [Hk' [Hm H]]]]]. injection Hm as H1 H2.
      assert (Hsame : d = d' /\ k = k').
      { apply (same_target r c); try assumption; apply Hsub; assumption. }
      destruct Hsame as [-> ->]. exact H.
    + intros H. exists d, k. repeat split; try assumption; apply H.
  - assert (Hnd : returns (_ray_moves b r c col (slider_deltas kd))
              (fun zs => NoDup zs /\ forall y, In y zs ->
                 exists d, In d (slider_deltas kd) /\
                   (In d queen_deltas /\ exists k : nat,
                      y = ((r, c), (step_row (r + fst d) (fst d) k,
                                    step_row (c + snd d) (snd d) k))))).
    { unfold _ray_moves. apply collect_NoDup.
      - apply slider_deltas_NoDup.
      - intros d Hd.
        assert (Hdne : (fst d, snd d) <> (0, 0)).
        { apply Hsub in Hd. simpl in Hd. intros Heq.
          repeat (destruct Hd as [<- | Hd]; [discriminate |]). destruct Hd. }
        apply returns_weaken with
          (1 := ray_scan_NoDup scan_fuel b r c col _ _ _ _ Hwf
                  (scan_fuel_covers r c d Hin (Hsub d Hd)) Hdne).
        intros ys [Hys Hform]. split; [exact Hys |].
        intros y Hy. split; [apply Hsub, Hd | apply Hform, Hy].
      - intros d d' y [Hq [k Hy]] [Hq' [k' Hy']]. subst y.
        injection Hy' as H1 H2. unfold step_row in H1, H2.
        destruct (same_target r c d d' (Z.of_nat k + 1) (Z.of_nat k' + 1))
          as [Hdd _]; try assumption; lia. }
    destruct Hnd as [zs [Ez [Hz _]]]. rewrite E in Ez. injection Ez as <-.
    exact Hz.
Qed.

Lemma ray_moves_blocked_witness :
  wf rook_board /\ inside 4 4 = true /\ is_slider Rook /\
  exists ms,
    piece_moves rook_board 4 4 WHITE Rook = Ok ms /\
    (forall m, In m ms ->
       exists d k, In d (slider_deltas Rook) /\ 1 <= k /\
         m = ((4, 4), (4 + k * fst d, 4 + k * snd d))) /\
    (forall d k, In d (slider_deltas Rook) -> 1 <= k ->
       (In ((4, 4), (4 + k * fst d, 4 + k * snd d)) ms <->
        inside (4 + k * fst d) (4 + k * snd d) = true /\
        open_line (grid rook_board) 4 4 (fst d) (snd d) k /\
        free_for (cell (grid rook_board) (4 + k * fst d) (4 + k * snd d)) WHITE
          = true)) /\
    NoDup ms.
Proof.
  split; [prove_wf |]. split; [reflexivity |].
  split; [left; reflexivity |].
  apply (ray_moves_blocked rook_board 4 4 WHITE Rook);
    [prove_wf | reflexivity | left; reflexivity].
Defined.

(** On that position the rook reaches the square next to its pawn, takes
    the knight, and goes no further on either side. *)
Example rook_board_moves :
  _rook_moves rook_board 4 4 WHITE =
    Ok [((4, 4), (3, 4)); ((4, 4), (2, 4)); ((4, 4), (1, 4)); ((4, 4), (0, 4));
        ((4, 4), (5, 4)); ((4, 4), (6, 4)); ((4, 4), (7, 4));
        ((4, 4), (4, 3)); ((4, 4), (4, 5)); ((4, 4), (4, 6))].
Proof. reflexivity. Qed.

(** ** Attack detection against move generation *)


Lemma is_piece_iff (p : option Piece) (col : Color) (k : Kind) :
  is_piece p col k = true <-> p = Some (mkPiece col k).
Proof.
  destruct p as [[cl kd] |]; simpl.
  - rewrite andb_true_iff, color_eqb_eq, kind_eqb_eq. split.
    + intros [-> ->]. reflexivity.
    + intros E. injection E as -> ->. split; reflexivity.
  - split; discriminate.
Qed.

Lemma enemy_is_free (t : option Piece) (col : Color) :
  enemy_of t col = true -> free_for t col = true.
Proof. destruct t; simpl; [tauto | discriminate]. Qed.

Lemma ok_true_iff (m : result bool) (P : Prop) :
  returns m (fun h => h = true <-> P) -> (m = Ok true <-> P).
Proof.
  intros [h [E Hh]]. rewrite E. split.
  - intros Eh. injection Eh as ->. apply Hh. reflexivity.
  - intros HP. apply Hh in HP. rewrite HP. reflexivity.
Qed.






(** The [any_of] of scans shared by the two sliding loops of
    [is_square_attacked], in terms of lines. *)
Lemma line_attack_spec (b : Board) (r c : Z) (col : Color)
    (deltas : list (Z * Z)) (k1 k2 : Kind) :
  wf b -> inside r c = true -> incl deltas queen_deltas ->
  (any_of (fun d => attack_scan scan_fuel b (r + fst d) (c + snd d)
                      (fst d) (snd d) col k1 k2) deltas = Ok true <->
   exists d k q, In d deltas /\ 1 <= k /\
     inside (r + k * fst d) (c + k * snd d) = true /\
     open_line (grid b) r c (fst d) (snd d) k /\
     cell (grid b) (r + k * fst d) (c + k * snd d) = Some q /\
     color q = col /\ (kind q = k1 \/ kind q = k2)).
Proof.
  intros Hwf Hin Hsub.
  rewrite (ok_true_iff _
    (exists d, In d deltas /\ exists (n : nat) (q : Piece),
       first_piece (grid b) (r + fst d) (c + snd d) (fst d) (snd d) n q /\
       color q = col /\ (kind q = k1 \/ kind q = k2))).
  - split.
    + intros [d [Hd [n [q [Hfp Hq]]]]]. exists d, (Z.of_nat n + 1), q.
      split; [exact Hd |]. split; [lia |].
      rewrite <- (Nat2Z.id n) in Hfp.
      replace (Z.of_nat n) with ((Z.of_nat n + 1) - 1) in Hfp by lia.
      apply first_piece_line in Hfp; try assumption; [| apply Hsub, Hd | lia].
      destruct Hfp as [Ht [Hl Hc]]. repeat split; try assumption; apply Hq.
    + intros [d [k [q [Hd [Hk [Ht [Hl [Hc Hq]]]]]]]]. exists d.
      split; [exact Hd |]. exists (Z.to_nat (k - 1)), q. split; [| exact Hq].
      apply first_piece_line; try assumption; [apply Hsub, Hd |].
      repeat split; assumption.
  - apply any_of_returns. intros d Hd.
    apply attack_scan_spec; [exact Hwf |].
    apply scan_fuel_covers; [exact Hin | apply Hsub, Hd].
Qed.

Section LineSymmetry.

(** A loop of [is_square_attacked] scanning the directions [deltas] for
    a piece of kind [k1] or a queen, and the geometric relation
    [on_line] between attacker and target that [deltas] stands for. *)
Variable deltas : list (Z * Z).
Variable k1 : Kind.
Variable on_line : Z -> Z -> Z -> Z -> Prop.

Hypothesis deltas_sub : incl deltas queen_deltas.
Hypothesis deltas_opp :
  forall d, In d deltas -> In (- fst d, - snd d) deltas.
Hypothesis k1_slider : is_slider k1.
Hypothesis k1_deltas : slider_deltas k1 = deltas.
Hypothesis on_line_deltas :
  forall d k r c, In d queen_deltas -> 1 <= k ->
    (In d deltas <-> on_line (r + k * fst d) (c + k * snd d) r c).


End LineSymmetry.












(** ** The pawn loop of the attack routine *)

(** C2, at the failing input: on [kingless_board] the white pawn on
    [(6, 4)] has the pseudo-legal capture onto [(5, 3)], one row up, yet
    [is_square_attacked] denies that White attacks [(5, 3)] and reports
    [(7, 3)], one row behind the pawn, as attacked: the pawn loop looks
    for a white attacker on row [r - 1] where it stands on row [r + 1]. *)
Theorem pawn_attack_looks_backwards :
  (exists pseudo,
     generate_pseudo_legal_moves kingless_board WHITE = Ok pseudo /\
     In ((6, 4), (5, 3)) pseudo) /\
  cell (grid kingless_board) 6 4 = Some (mkPiece WHITE Pawn) /\
  is_square_attacked kingless_board 5 3 WHITE = Ok false /\
  attacked_by_pawn kingless_board 5 3 WHITE = Ok false /\
  attacked_by_pawn kingless_board 7 3 WHITE = Ok true /\
  is_square_attacked kingless_board 7 3 WHITE = Ok true.
Proof.
  split.
  - eexists. split; [vm_compute; reflexivity |]. simpl. tauto.
  - repeat split; vm_compute; reflexivity.
Qed.

(** What the pawn loop computes on every board: an attack by [col] on
    [(r, c)] is reported exactly when a pawn of [col] stands one column
    aside on row [r + pawn_dir col], the row onto which such a pawn
    would advance from [r], not the row from which it captures onto [r]. *)
Lemma attacked_by_pawn_rows (b : Board) (col : Color) (r c : Z) :
  wf b ->
  (attacked_by_pawn b r c col = Ok true <->
   exists pc, (pc = c - 1 \/ pc = c + 1) /\
     inside (r + pawn_dir col) pc = true /\
     cell (grid b) (r + pawn_dir col) pc = Some (mkPiece col Pawn)).
Proof.
  intros Hwf.
  rewrite (ok_true_iff _ _ (attacked_by_pawn_spec b r c col Hwf)).
  change (pawn_probe_dir col) with (pawn_dir col). split.
  - intros [dc [Hdc [Hi Hp]]]. exists (c + dc).
    split; [simpl in Hdc; lia |]. split; [exact Hi | apply is_piece_iff, Hp].
  - intros [pc [Hpc [Hi Hp]]]. exists (pc - c).
    split; [simpl; lia |]. replace (c + (pc - c)) with pc by lia.
    split; [exact Hi | apply is_piece_iff, Hp].
Qed.

(* ================================================================= *)
(** * Further properties of the board *)

(** ** [king_position] scans in row-major order *)

Lemma first_of_index {A B : Type} (f : A -> result (option B)) (xs : list A)
    (v : B) :
  first_of f xs = Ok (Some v) ->
  exists (i : nat) (x : A),
    nth_error xs i = Some x /\ f x = Ok (Some v) /\
    forall (j : nat) (y : A), (j < i)%nat -> nth_error xs j = Some y ->
      f y = Ok None.
Proof.
  induction xs as [| x xs IH]; simpl; [discriminate |].
  destruct (f x) as [[w |] | |] eqn:Ex; cbn [bind]; try discriminate.
  - intros E. injection E as <-. exists 0%nat, x.
    split; [reflexivity |]. split; [exact Ex |]. intros j y Hj. lia.
  - intros E. destruct (IH E) as [i [x' [Hn [Hf Hpre]]]].
    exists (S i), x'. split; [exact Hn |]. split; [exact Hf |].
    intros [| j] y Hj Hy; simpl in Hy.
    + injection Hy as <-. exact Ex.
    + apply (Hpre j); [lia | exact Hy].
Qed.

Lemma first_of_none {A B : Type} (f : A -> result (option B)) (xs : list A) :
  first_of f xs = Ok None -> forall y, In y xs -> f y = Ok None.
Proof.
  induction xs as [| x xs IH]; simpl; [intros _ y [] |].
  destruct (f x) as [[w |] | |] eqn:Ex; cbn [bind]; try discriminate.
  intros E y [<- | Hy]; [exact Ex | apply IH; assumption].
Qed.

Lemma nth_error_range (n : Z) (i : nat) (x : Z) :
  nth_error (range n) i = Some x -> x = Z.of_nat i /\ 0 <= x < n.
Proof.
  unfold range. intros H. rewrite nth_error_map in H.
  destruct (nth_error (seq 0 (Z.to_nat n)) i) as [k |] eqn:E; [| discriminate].
  injection H as <-.
  assert (Hlt : (i < length (seq 0 (Z.to_nat n)))%nat).
  { apply nth_error_Some. rewrite E. discriminate. }
  rewrite length_seq in Hlt.
  rewrite nth_error_nth' with (d := 0%nat) in E by (rewrite length_seq; exact Hlt).
  rewrite seq_nth in E by exact Hlt. injection E as <-. lia.
Qed.

Lemma range_nth_error (n : Z) (x : Z) :
  0 <= x < n -> nth_error (range n) (Z.to_nat x) = Some x.
Proof.
  intros Hx. unfold range. rewrite nth_error_map.
  rewrite nth_error_nth' with (d := 0%nat) by (rewrite length_seq; lia).
  rewrite seq_nth by lia. simpl. f_equal. lia.
Qed.

(** X1: [king_position] returns the first square, in row-major order, that
    holds a king of the colour asked for, and [None] exactly when the
    board holds no such king. *)
Theorem king_position_first (b : Board) (col : Color) :
  wf b ->
  exists o,
    king_position b col = Ok o /\
    match o with
    | Some (r, c) =>
        inside r c = true /\
        cell (grid b) r c = Some (mkPiece col King) /\
        forall r' c', inside r' c' = true -> before r' c' r c ->
          cell (grid b) r' c' <> Some (mkPiece col King)
    | None =>
        forall r c, inside r c = true ->
          cell (grid b) r c <> Some (mkPiece col King)
    end.
Proof.
  intros Hwf. destruct (king_position_spec b col Hwf) as [o [E Ho]].
  exists o. split; [exact E |]. destruct o as [[r c] |].
  - destruct Ho as [Hin Hk]. split; [exact Hin |].
    split; [apply is_piece_iff, Hk |].
    assert (Hbody : forall r0 c0 v, inside r0 c0 = true ->
              (p <- grid_get (grid b) r0 c0 ;;
               match p with
               | Some q =>
                   if color_eqb (color q) col && kind_eqb (kind q) King
                   then Ok (Some (r0, c0)) else Ok None
               | None => Ok None
               end) = Ok v ->
              (v = None /\ cell (grid b) r0 c0 <> Some (mkPiece col King)) \/
              (v = Some (r0, c0))).
    { intros r0 c0 v Hi. rewrite grid_get_inside by assumption. cbn [bind].
      destruct (cell (grid b) r0 c0) as [q |] eqn:Hq.
      - destruct (color_eqb (color q) col && kind_eqb (kind q) King) eqn:Ek;
          intros Ev; injection Ev as <-; [right; reflexivity | left].
        split; [reflexivity |]. intros Heq. injection Heq as ->.
        simpl in Ek. destruct col; discriminate.
      - intros Ev. injection Ev as <-. left. split; [reflexivity | discriminate]. }
    unfold king_position in E.
    destruct (first_of_index _ _ _ E) as [i [r0 [Hr0 [Hrow Hrows]]]].
    destruct (first_of_index _ _ _ Hrow) as [j [c0 [Hc0 [Hsq Hcols]]]].
    destruct (nth_error_range _ _ _ Hr0) as [Er0 Hr0b].
    destruct (nth_error_range _ _ _ Hc0) as [Ec0 Hc0b].
    assert (Hi0 : inside r0 c0 = true)
      by (apply inside_iff; unfold ROWS, COLS in *; lia).
    assert (Hrc : r = r0 /\ c = c0).
    { destruct (Hbody r0 c0 _ Hi0 Hsq) as [[Hv _] | Hv]; [discriminate |].
      injection Hv as Hr Hc. split; assumption. }
    destruct Hrc as [-> ->].
    intros r' c' Hin' Hbef. pose proof Hin' as Hb'. apply inside_iff in Hb'.
    assert (Hnone : (p <- grid_get (grid b) r' c' ;;
               match p with
               | Some q =>
                   if color_eqb (color q) col && kind_eqb (kind q) King
                   then Ok (Some (r', c')) else Ok None
               | None => Ok None
               end) = Ok None).
    { destruct Hbef as [Hlt | [-> Hlt]].
      - pose proof (Hrows (Z.to_nat r') r' ltac:(lia)
                      (range_nth_error ROWS r' ltac:(unfold ROWS; lia))) as Hrow'.
        apply (first_of_none _ _ Hrow' c').
        apply in_range. unfold COLS. lia.
      - apply (Hcols (Z.to_nat c') c'); [lia |].
        apply range_nth_error. unfold COLS. lia. }
    destruct (Hbody r' c' None Hin' Hnone) as [[_ H] | H];
      [exact H | discriminate].
  - intros r c Hin Hk. apply is_piece_iff in Hk. rewrite (Ho r c Hin) in Hk.
    discriminate.
Qed.

Lemma king_position_first_witness :
  wf start_board /\
  exists o,
    king_position start_board BLACK = Ok o /\
    match o with
    | Some (r, c) =>
        inside r c = true /\
        cell (grid start_board) r c = Some (mkPiece BLACK King) /\
        forall r' c', inside r' c' = true -> before r' c' r c ->
          cell (grid start_board) r' c' <> Some (mkPiece BLACK King)
    | None =>
        forall r c, inside r c = true ->
          cell (grid start_board) r c <> Some (mkPiece BLACK King)
    end.
Proof.
  split; [prove_wf |]. apply (king_position_first start_board BLACK). prove_wf.
Defined.

(** ** The attack routine never reads the target square *)

Lemma returns_bool_eq (m m' : result bool) (P P' : Prop) :
  returns m (fun h => h = true <-> P) ->
  returns m' (fun h => h = true <-> P') ->
  (P <-> P') -> m = m'.
Proof.
  intros [h [E Hh]] [h' [E' Hh']] HP. rewrite E, E'. f_equal.
  destruct h, h'; try reflexivity.
  - symmetry. apply Hh', HP, Hh. reflexivity.
  - apply Hh, HP, Hh'. reflexivity.
Qed.

Lemma agree_off_sym (g g' : Grid) (r c : Z) :
  agree_off g g' r c -> agree_off g' g r c.
Proof. intros H r' c' Hi Hne. symmetry. apply H; assumption. Qed.

Lemma agree_off_line (g g' : Grid) (r c : Z) (d : Z * Z) (k : Z) :
  agree_off g g' r c -> In d queen_deltas -> inside r c = true -> 1 <= k ->
  inside (r + k * fst d) (c + k * snd d) = true ->
  open_line g r c (fst d) (snd d) k -> open_line g' r c (fst d) (snd d) k.
Proof.
  intros Hag Hd Hin Hk Ht Hl j Hj. rewrite Hag.
  - apply Hl, Hj.
  - apply between_inside with (k := k); try assumption. lia.
  - intros Heq. injection Heq as H1 H2. simpl in Hd.
    repeat (destruct Hd as [<- | Hd]; [cbn [fst snd] in *; lia |]). destruct Hd.
Qed.

Lemma agree_off_target (g g' : Grid) (r c : Z) (d : Z * Z) (k : Z) :
  agree_off g g' r c -> In d queen_deltas -> 1 <= k ->
  inside (r + k * fst d) (c + k * snd d) = true ->
  cell g' (r + k * fst d) (c + k * snd d) = cell g (r + k * fst d) (c + k * snd d).
Proof.
  intros Hag Hd Hk Ht. apply Hag; [exact Ht |].
  intros Heq. injection Heq as H1 H2. simpl in Hd.
  repeat (destruct Hd as [<- | Hd]; [cbn [fst snd] in *; lia |]). destruct Hd.
Qed.

Lemma line_attack_agree (b b' : Board) (r c : Z) (col : Color)
    (deltas : list (Z * Z)) (k1 k2 : Kind) :
  wf b -> wf b' -> inside r c = true -> incl deltas queen_deltas ->
  agree_off (grid b) (grid b') r c ->
  any_of (fun d => attack_scan scan_fuel b' (r + fst d) (c + snd d)
                     (fst d) (snd d) col k1 k2) deltas =
  any_of (fun d => attack_scan scan_fuel b (r + fst d) (c + snd d)
                     (fst d) (snd d) col k1 k2) deltas.
Proof.
  intros Hwf Hwf' Hin Hsub Hag.
  assert (Hdir : forall (x y : Board), wf x -> wf y ->
            agree_off (grid x) (grid y) r c ->
            any_of (fun d => attack_scan scan_fuel x (r + fst d) (c + snd d)
                               (fst d) (snd d) col k1 k2) deltas = Ok true ->
            any_of (fun d => attack_scan scan_fuel y (r + fst d) (c + snd d)
                               (fst d) (snd d) col k1 k2) deltas = Ok true).
  { intros x y Hx Hy Hxy H.
    apply (line_attack_spec x r c col deltas k1 k2 Hx Hin Hsub) in H.
    apply (line_attack_spec y r c col deltas k1 k2 Hy Hin Hsub).
    destruct H as [d [k [q [Hd [Hk [Ht [Hl [Hc Hq]]]]]]]].
    exists d, k, q. split; [exact Hd |]. split; [exact Hk |].
    split; [exact Ht |]. split.
    - apply (agree_off_line (grid x)); try assumption. apply Hsub, Hd.
    - split; [| exact Hq]. rewrite <- Hc.
      apply agree_off_target; try assumption. apply Hsub, Hd. }
  assert (Ht : forall x, wf x -> exists h,
            any_of (fun d => attack_scan scan_fuel x (r + fst d) (c + snd d)
                               (fst d) (snd d) col k1 k2) deltas = Ok h).
  { intros x Hx. eapply returns_total. apply any_of_returns. intros d Hd.
    apply attack_scan_spec; [exact Hx |].
    apply scan_fuel_covers; [exact Hin | apply Hsub, Hd]. }
  destruct (Ht b Hwf) as [h E]. destruct (Ht b' Hwf') as [h' E'].
  rewrite E, E'. f_equal. destruct h, h'; try reflexivity.
  - apply (Hdir b b' Hwf Hwf' Hag) in E. congruence.
  - apply (Hdir b' b Hwf' Hwf (agree_off_sym _ _ _ _ Hag)) in E'. congruence.
Qed.

Lemma is_square_attacked_agree (b b' : Board) (r c : Z) (col : Color) :
  wf b -> wf b' -> inside r c = true ->
  agree_off (grid b) (grid b') r c ->
  is_square_attacked b' r c col = is_square_attacked b r c col.
Proof.
  intros Hwf Hwf' Hin Hag.
  assert (Hcell : forall dr dc, (dr, dc) <> (0, 0) ->
            inside (r + dr) (c + dc) = true ->
            cell (grid b') (r + dr) (c + dc) = cell (grid b) (r + dr) (c + dc)).
  { intros dr dc Hne Hi. apply Hag; [exact Hi |].
    intros Heq. injection Heq as H1 H2. apply Hne. f_equal; lia. }
  unfold is_square_attacked.
  replace (attacked_by_knight b' r c col) with (attacked_by_knight b r c col).
  2:{ apply returns_bool_eq with (1 := attacked_by_knight_spec b r c col Hwf)
                                 (2 := attacked_by_knight_spec b' r c col Hwf').
      split; intros [d [Hd [Hi Hp]]]; exists d; (split; [exact Hd |]);
        (split; [exact Hi |]);
        [rewrite Hcell | rewrite <- Hcell]; try assumption;
        simpl in Hd; intros Heq;
        repeat (destruct Hd as [<- | Hd]; [discriminate Heq |]); destruct Hd. }
  replace (attacked_by_pawn b' r c col) with (attacked_by_pawn b r c col).
  2:{ apply returns_bool_eq with (1 := attacked_by_pawn_spec b r c col Hwf)
                                 (2 := attacked_by_pawn_spec b' r c col Hwf').
      split; intros [dc [Hd [Hi Hp]]]; exists dc; (split; [exact Hd |]);
        (split; [exact Hi |]);
        [rewrite Hcell | rewrite <- Hcell]; try assumption;
        simpl in Hd; intros Heq; injection Heq as H1 H2;
        repeat (destruct Hd as [<- | Hd]; [discriminate H2 |]); destruct Hd. }
  replace (attacked_by_king b' r c col) with (attacked_by_king b r c col).
  2:{ apply returns_bool_eq with (1 := attacked_by_king_spec b r c col Hwf)
                                 (2 := attacked_by_king_spec b' r c col Hwf').
      split; intros [dr [Hdr [dc [Hdc [Hne [Hi Hp]]]]]]; exists dr;
        (split; [exact Hdr |]); exists dc; (split; [exact Hdc |]);
        (split; [exact Hne |]); (split; [exact Hi |]);
        [rewrite Hcell | rewrite <- Hcell]; assumption. }
  replace (attacked_on_straight b' r c col) with (attacked_on_straight b r c col)
    by (symmetry; apply line_attack_agree; try assumption;
        exact straight_in_queen).
  replace (attacked_on_diagonal b' r c col) with (attacked_on_diagonal b r c col)
    by (symmetry; apply line_attack_agree; try assumption;
        exact diagonal_in_queen).
  reflexivity.
Qed.

(** X2: whether [(r, c)] is attacked does not depend on what stands on
    [(r, c)]: overwriting that square leaves the answer of
    [is_square_attacked] unchanged. *)
Theorem is_square_attacked_ignores_target (b : Board) (r c : Z)
    (v : option Piece) (col : Color) :
  wf b -> inside r c = true ->
  exists g',
    grid_set (grid b) r c v = Ok g' /\
    is_square_attacked (mkBoard g' (to_move b)) r c col =
    is_square_attacked b r c col.
Proof.
  intros Hwf Hin.
  destruct (grid_set_ok (grid b) r c v Hwf Hin) as [g' [E [Hwf' Hc]]].
  exists g'. split; [exact E |].
  apply is_square_attacked_agree; try assumption.
  intros r' c' Hi Hne. cbn [grid]. rewrite Hc by assumption.
  destruct ((r' =? r) && (c' =? c)) eqn:Ee; [| reflexivity].
  exfalso. apply Hne. f_equal; lia.
Qed.

Lemma is_square_attacked_ignores_target_witness :
  wf king_board /\ inside 4 5 = true /\
  exists g',
    grid_set (grid king_board) 4 5 None = Ok g' /\
    is_square_attacked (mkBoard g' (to_move king_board)) 4 5 BLACK =
    is_square_attacked king_board 4 5 BLACK.
Proof.
  split; [prove_wf |]. split; [reflexivity |].
  apply (is_square_attacked_ignores_target king_board 4 5 None BLACK);
    [prove_wf | reflexivity].
Defined.

(** ** Shape of the pseudo-legal moves *)

Lemma piece_moves_free (b : Board) (r c : Z) (col : Color) (k : Kind)
    (l : list Move) (m : Move) :
  wf b -> inside r c = true -> piece_moves b r c col k = Ok l -> In m l ->
  free_for (cell (grid b) (fst (snd m)) (snd (snd m))) col = true.
Proof.
  intros Hwf Hin E Hm. destruct k; simpl in E.
  - apply (returns_inv _ _ _ (king_moves_spec b r c col Hwf) E) in Hm.
    destruct Hm as [dr [_ [dc [_ [_ [-> [_ [Hf _]]]]]]]]. exact Hf.
  - apply (returns_inv _ _ _
             (ray_moves_spec b r c col _ Hwf Hin (incl_refl queen_deltas)) E) in Hm.
    destruct Hm as [d [_ [j [-> [_ [_ Hf]]]]]]. exact Hf.
  - apply (returns_inv _ _ _ (ray_moves_spec b r c col _ Hwf Hin rook_incl) E) in Hm.
    destruct Hm as [d [_ [j [-> [_ [_ Hf]]]]]]. exact Hf.
  - apply (returns_inv _ _ _ (ray_moves_spec b r c col _ Hwf Hin bishop_incl) E) in Hm.
    destruct Hm as [d [_ [j [-> [_ [_ Hf]]]]]]. exact Hf.
  - apply (returns_inv _ _ _ (knight_moves_spec b r c col Hwf) E) in Hm.
    destruct Hm as [d [_ [-> [_ Hf]]]]. exact Hf.
  - apply (returns_inv _ _ _ (pawn_moves_spec b r c col Hwf) E) in Hm.
    destruct Hm as [[_ [Hn [-> | [-> [_ Hn2]]]]] | [dc [_ [-> [_ He]]]]];
      cbn [fst snd].
    + rewrite Hn. reflexivity.
    + rewrite Hn2. reflexivity.
    + apply enemy_is_free, He.
Qed.

(** X3: every pseudo-legal move of colour [col] starts on a square holding a
    piece of [col], ends on a different square of the board, and that
    square is empty or holds a piece of the other colour: no move stays in
    place or lands on an own piece. *)
Theorem pseudo_legal_moves_shape (b : Board) (col : Color) :
  wf b ->
  exists pseudo,
    generate_pseudo_legal_moves b col = Ok pseudo /\
    forall sr sc dr dc, In ((sr, sc), (dr, dc)) pseudo ->
      inside sr sc = true /\ inside dr dc = true /\ (sr, sc) <> (dr, dc) /\
      (exists q, cell (grid b) sr sc = Some q /\ color q = col) /\
      free_for (cell (grid b) dr dc) col = true.
Proof.
  intros Hwf.
  destruct (generate_pseudo_legal_moves_spec b col Hwf) as [pseudo [Ep Hp]].
  exists pseudo. split; [exact Ep |]. intros sr sc dr dc Hm.
  apply Hp in Hm. destruct Hm as [r [c [q Hgen]]].
  destruct (generated_by_sound b col r c q _ Hwf Hgen) as [Hsrc Hdst].
  destruct Hgen as [Hin [Hq [Hcol [l [E Hml]]]]].
  pose proof (piece_moves_off_square b r c col (kind q) l _ Hwf Hin E Hml) as Hoff.
  pose proof (piece_moves_free b r c col (kind q) l _ Hwf Hin E Hml) as Hfree.
  cbn [fst snd] in *. injection Hsrc as -> ->.
  split; [exact Hin |]. split; [exact Hdst |].
  split; [intros Heq; apply Hoff; symmetry; exact Heq |].
  split; [exists q; split; assumption | exact Hfree].
Qed.

Lemma pseudo_legal_moves_shape_witness :
  wf start_board /\
  exists pseudo,
    generate_pseudo_legal_moves start_board WHITE = Ok pseudo /\
    forall sr sc dr dc, In ((sr, sc), (dr, dc)) pseudo ->
      inside sr sc = true /\ inside dr dc = true /\ (sr, sc) <> (dr, dc) /\
      (exists q, cell (grid start_board) sr sc = Some q /\ color q = WHITE) /\
      free_for (cell (grid start_board) dr dc) WHITE = true.
Proof.
  split; [prove_wf |]. apply (pseudo_legal_moves_shape start_board WHITE). prove_wf.
Defined.

(** ** The pawn and knight rules *)

(** X4: [_pawn_moves] returns exactly: the step forward when that square is
    on the board and empty; the double step when moreover the pawn is on
    its home row (6 for White, 1 for Black) and the second square is
    empty; and each forward diagonal square that is on the board and
    holds an opposing piece.  A pawn whose forward row is off the board
    has no move. *)
Theorem pawn_moves_exact (b : Board) (r c : Z) (col : Color) :
  wf b ->
  exists ms,
    _pawn_moves b r c col = Ok ms /\
    (forall m, In m ms <->
       (inside (r + pawn_dir col) c = true /\
        cell (grid b) (r + pawn_dir col) c = None /\
        (m = ((r, c), (r + pawn_dir col, c)) \/
         (m = ((r, c), (r + 2 * pawn_dir col, c)) /\ r = pawn_start_row col /\
          cell (grid b) (r + 2 * pawn_dir col) c = None))) \/
       (exists dc, (dc = -1 \/ dc = 1) /\
          m = ((r, c), (r + pawn_dir col, c + dc)) /\
          inside (r + pawn_dir col) (c + dc) = true /\
          enemy_of (cell (grid b) (r + pawn_dir col) (c + dc)) col = true)) /\
    (~ 0 <= r + pawn_dir col < ROWS -> ms = []).
Proof.
  intros Hwf. destruct (pawn_moves_spec b r c col Hwf) as [ms [E H]].
  exists ms. split; [exact E |]. split.
  - intros m. rewrite H. split.
    + intros [Hf | [dc [Hdc Hc]]]; [left; exact Hf | right].
      exists dc. split; [simpl in Hdc; lia | exact Hc].
    + intros [Hf | [dc [Hdc Hc]]]; [left; exact Hf | right].
      exists dc. split; [simpl; lia | exact Hc].
  - intros Hout. destruct ms as [| m ms]; [reflexivity |]. exfalso.
    assert (Hm : In m (m :: ms)) by (left; reflexivity).
    apply H in Hm. unfold ROWS in Hout.
    destruct Hm as [[Hi _] | [dc [_ [_ [Hi _]]]]]; apply inside_iff in Hi; lia.
Qed.

Lemma pawn_moves_exact_witness :
  wf start_board /\
  exists ms,
    _pawn_moves start_board 6 4 WHITE = Ok ms /\
    (forall m, In m ms <->
       (inside (6 + pawn_dir WHITE) 4 = true /\
        cell (grid start_board) (6 + pawn_dir WHITE) 4 = None /\
        (m = ((6, 4), (6 + pawn_dir WHITE, 4)) \/
         (m = ((6, 4), (6 + 2 * pawn_dir WHITE, 4)) /\ 6 = pawn_start_row WHITE /\
          cell (grid start_board) (6 + 2 * pawn_dir WHITE) 4 = None))) \/
       (exists dc, (dc = -1 \/ dc = 1) /\
          m = ((6, 4), (6 + pawn_dir WHITE, 4 + dc)) /\
          inside (6 + pawn_dir WHITE) (4 + dc) = true /\
          enemy_of (cell (grid start_board) (6 + pawn_dir WHITE) (4 + dc)) WHITE
            = true)) /\
    (~ 0 <= 6 + pawn_dir WHITE < ROWS -> ms = []).
Proof.
  split; [prove_wf |]. apply (pawn_moves_exact start_board 6 4 WHITE). prove_wf.
Defined.

(** X5: [_knight_moves] returns exactly the moves to the squares at the 8
    knight offsets that are on the board and empty or held by an opposing
    piece; pieces in between never matter. *)
Theorem knight_moves_exact (b : Board) (r c : Z) (col : Color) :
  wf b ->
  exists ms,
    _knight_moves b r c col = Ok ms /\
    forall src nr nc, In (src, (nr, nc)) ms <->
      src = (r, c) /\
      ((Z.abs (nr - r) = 1 /\ Z.abs (nc - c) = 2) \/
       (Z.abs (nr - r) = 2 /\ Z.abs (nc - c) = 1)) /\
      inside nr nc = true /\
      free_for (cell (grid b) nr nc) col = true.
Proof.
  intros Hwf. destruct (knight_moves_spec b r c col Hwf) as [ms [E H]].
  exists ms. split; [exact E |]. intros src nr nc. rewrite H. split.
  - intros [d [Hd [Hm [Hi Hf]]]]. injection Hm as -> -> ->.
    split; [reflexivity |]. split; [| split; assumption].
    simpl in Hd.
    repeat (destruct Hd as [<- | Hd]; [cbn [fst snd]; lia |]). destruct Hd.
  - intros [-> [Hoff [Hi Hf]]]. exists (nr - r, nc - c). cbn [fst snd].
    replace (r + (nr - r)) with nr by lia.
    replace (c + (nc - c)) with nc by lia.
    split; [| repeat split; assumption].
    assert (Hcases :
      (nr - r = -2 /\ nc - c = -1) \/ (nr - r = -2 /\ nc - c = 1) \/
      (nr - r = -1 /\ nc - c = -2) \/ (nr - r = -1 /\ nc - c = 2) \/
      (nr - r = 1 /\ nc - c = -2) \/ (nr - r = 1 /\ nc - c = 2) \/
      (nr - r = 2 /\ nc - c = -1) \/ (nr - r = 2 /\ nc - c = 1)) by lia.
    simpl.
    repeat (destruct Hcases as [[-> ->] | Hcases]; [tauto |]).
    destruct Hcases as [-> ->]. tauto.
Qed.

Lemma knight_moves_exact_witness :
  wf start_board /\
  exists ms,
    _knight_moves start_board 7 1 WHITE = Ok ms /\
    forall src nr nc, In (src, (nr, nc)) ms <->
      src = (7, 1) /\
      ((Z.abs (nr - 7) = 1 /\ Z.abs (nc - 1) = 2) \/
       (Z.abs (nr - 7) = 2 /\ Z.abs (nc - 1) = 1)) /\
      inside nr nc = true /\
      free_for (cell (grid start_board) nr nc) WHITE = true.
Proof.
  split; [prove_wf |]. apply (knight_moves_exact start_board 7 1 WHITE). prove_wf.
Defined.

(** ** The legality filter as a filter *)

Lemma pseudo_simulate_total (b : Board) (col col' : Color)
    (pseudo : list Move) (m : Move) :
  wf b -> generate_pseudo_legal_moves b col = Ok pseudo -> In m pseudo ->
  exists b2 chk,
    simulate b (fst m) (snd m) = Ok b2 /\ wf b2 /\ is_in_check b2 col' = Ok chk.
Proof.
  intros Hwf Ep Hm.
  apply (returns_inv _ _ _ (generate_pseudo_legal_moves_spec b col Hwf) Ep) in Hm.
  destruct Hm as [r [c [q Hgen]]].
  destruct (generated_by_sound b col r c q m Hwf Hgen) as [Hsrc Hdst].
  destruct Hgen as [Hin _].
  destruct m as [[sr sc] [dr dc]]. cbn [fst snd] in *. injection Hsrc as -> ->.
  destruct (simulate_spec b r c dr dc Hwf Hin Hdst) as [b2 [E2 [Hwf2 _]]].
  destruct (is_in_check_total b2 col' Hwf2) as [chk Ec].
  exists b2, chk. split; [exact E2 |]. split; [exact Hwf2 | exact Ec].
Qed.

Lemma collect_keeps (b : Board) (col : Color) (l : list Move) :
  (forall m, In m l ->
     exists b2 chk, simulate b (fst m) (snd m) = Ok b2 /\
                    is_in_check b2 col = Ok chk) ->
  collect (fun m =>
             b2 <- simulate b (fst m) (snd m) ;;
             chk <- is_in_check b2 col ;;
             if negb chk then Ok [m] else Ok []) l
  = Ok (filter (keeps b col) l).
Proof.
  induction l as [| m l IH]; intros H; [reflexivity |].
  cbn [collect filter].
  destruct (H m (or_introl eq_refl)) as [b2 [chk [E2 Ec]]].
  rewrite (IH (fun m' Hm' => H m' (or_intror Hm'))).
  unfold keeps. rewrite E2. cbn [bind]. rewrite Ec. cbn [bind].
  destruct chk; reflexivity.
Qed.

(** X6: [generate_legal_moves] returns the pseudo-legal moves that pass the
    check test, in the order of [generate_pseudo_legal_moves] and with
    nothing added: it is that list filtered. *)
Theorem legal_moves_filter (b : Board) (col : Color) :
  wf b ->
  exists pseudo,
    generate_pseudo_legal_moves b col = Ok pseudo /\
    generate_legal_moves b col = Ok (filter (keeps b col) pseudo).
Proof.
  intros Hwf.
  destruct (generate_pseudo_legal_moves_spec b col Hwf) as [pseudo [Ep _]].
  exists pseudo. split; [exact Ep |].
  unfold generate_legal_moves. rewrite Ep. cbn [bind].
  apply collect_keeps. intros m Hm.
  destruct (pseudo_simulate_total b col col pseudo m Hwf Ep Hm)
    as [b2 [chk [E2 [_ Ec]]]].
  exists b2, chk. split; assumption.
Qed.

Lemma legal_moves_filter_witness :
  wf king_board /\
  exists pseudo,
    generate_pseudo_legal_moves king_board WHITE = Ok pseudo /\
    generate_legal_moves king_board WHITE = Ok (filter (keeps king_board WHITE) pseudo).
Proof.
  split; [prove_wf |]. apply (legal_moves_filter king_board WHITE). prove_wf.
Defined.

(** ** Applying a move in the game *)

(** X7: [ChessGame._make_move] between two different squares of the board
    always succeeds: the source becomes empty, the destination receives
    the moved piece, or a queen of its colour when that piece is a pawn
    arriving on row 0 (White) or row 7 (Black), every other square is
    unchanged, the board stays 8x8 and the side to move flips. *)
Theorem make_move_effect (b : Board) (sr sc dr dc : Z) :
  wf b -> inside sr sc = true -> inside dr dc = true -> (sr, sc) <> (dr, dc) ->
  exists b',
    _make_move b (sr, sc) (dr, dc) = Ok b' /\
    wf b' /\
    to_move b' = (if color_eqb (to_move b) WHITE then BLACK else WHITE) /\
    cell (grid b') sr sc = None /\
    cell (grid b') dr dc =
      match cell (grid b) sr sc with
      | Some q =>
          if kind_eqb (kind q) Pawn && (dr =? last_row (color q))
          then Some (mkPiece (color q) Queen) else Some q
      | None => None
      end /\
    forall r c, inside r c = true -> (r, c) <> (sr, sc) -> (r, c) <> (dr, dc) ->
      cell (grid b') r c = cell (grid b) r c.
Proof.
  intros Hwf Hs Hd Hne.
  destruct (simulate_spec b sr sc dr dc Hwf Hs Hd) as [b2 [E2 [Hwf2 [Ht2 Hc2]]]].
  eexists. split; [apply make_move_simulate, E2 |]. cbn [grid to_move].
  split; [exact Hwf2 |]. split; [rewrite Ht2; reflexivity |].
  assert (Hds : (dr =? sr) && (dc =? sc) = false).
  { destruct ((dr =? sr) && (dc =? sc)) eqn:Ee; [| reflexivity].
    exfalso. apply Hne. f_equal; lia. }
  assert (Hsd : (sr =? dr) && (sc =? dc) = false).
  { destruct ((sr =? dr) && (sc =? dc)) eqn:Ee; [| reflexivity].
    exfalso. apply Hne. f_equal; lia. }
  split; [| split].
  - rewrite Hc2 by assumption. rewrite Hsd, !Z.eqb_refl. reflexivity.
  - rewrite Hc2 by assumption. rewrite !Z.eqb_refl, Hds. cbn [andb].
    destruct (cell (grid b) sr sc) as [q |]; [| reflexivity].
    assert (Hp : promotes (Some q) dr =
                 kind_eqb (kind q) Pawn && (dr =? last_row (color q))).
    { unfold promotes, last_row.
      destruct (color q); cbn [color_eqb andb orb]; rewrite ?orb_false_r;
        reflexivity. }
    rewrite Hp. cbn [landed]. rewrite Hp.
    destruct (kind_eqb (kind q) Pawn && (dr =? last_row (color q))); reflexivity.
  - intros r c Hin Hns Hnd. rewrite Hc2 by assumption.
    assert (E1 : (r =? dr) && (c =? dc) = false).
    { destruct ((r =? dr) && (c =? dc)) eqn:Ee; [| reflexivity].
      exfalso. apply Hnd. f_equal; lia. }
    assert (E3 : (r =? sr) && (c =? sc) = false).
    { destruct ((r =? sr) && (c =? sc)) eqn:Ee; [| reflexivity].
      exfalso. apply Hns. f_equal; lia. }
    rewrite E1, E3. reflexivity.
Qed.

Lemma make_move_effect_witness :
  wf promotion_board /\ inside 1 0 = true /\ inside 0 0 = true /\
  (1, 0) <> (0, 0) /\
  exists b',
    _make_move promotion_board (1, 0) (0, 0) = Ok b' /\
    wf b' /\
    to_move b' = (if color_eqb (to_move promotion_board) WHITE then BLACK else WHITE) /\
    cell (grid b') 1 0 = None /\
    cell (grid b') 0 0 =
      match cell (grid promotion_board) 1 0 with
      | Some q =>
          if kind_eqb (kind q) Pawn && (0 =? last_row (color q))
          then Some (mkPiece (color q) Queen) else Some q
      | None => None
      end /\
    forall r c, inside r c = true -> (r, c) <> (1, 0) -> (r, c) <> (0, 0) ->
      cell (grid b') r c = cell (grid promotion_board) r c.
Proof.
  split; [prove_wf |]. split; [reflexivity |]. split; [reflexivity |].
  split; [discriminate |].
  apply (make_move_effect promotion_board 1 0 0 0);
    [prove_wf | reflexivity | reflexivity | discriminate].
Defined.

(** ** Copying a board *)

(** X8: [Board.copy] rebuilds every row and every piece and yields a board
    equal to the original, whatever its shape. *)
Theorem copy_faithful (b : Board) :
  grid (copy b) = grid b /\ to_move (copy b) = to_move b.
Proof. rewrite copy_eq. split; reflexivity. Qed.

(** ** The loops of the attack routine *)

(** X9: the straight (resp. diagonal) loop of [is_square_attacked] reports
    an attack on a square of the board exactly when, in one of its four
    directions, the first occupied square is on the board and holds a
    rook (resp. bishop) or queen of the attacking colour; any other
    first piece, of either colour, blocks the line. *)
Theorem sliding_attack_first_blocker (b : Board) (r c : Z) (col : Color) :
  wf b -> inside r c = true ->
  (attacked_on_straight b r c col = Ok true <->
   exists d k q, In d straight_deltas /\ 1 <= k /\
     inside (r + k * fst d) (c + k * snd d) = true /\
     open_line (grid b) r c (fst d) (snd d) k /\
     cell (grid b) (r + k * fst d) (c + k * snd d) = Some q /\
     color q = col /\ (kind q = Rook \/ kind q = Queen)) /\
  (attacked_on_diagonal b r c col = Ok true <->
   exists d k q, In d diagonal_deltas /\ 1 <= k /\
     inside (r + k * fst d) (c + k * snd d) = true /\
     open_line (grid b) r c (fst d) (snd d) k /\
     cell (grid b) (r + k * fst d) (c + k * snd d) = Some q /\
     color q = col /\ (kind q = Bishop \/ kind q = Queen)).
Proof.
  intros Hwf Hin. split.
  - apply (line_attack_spec b r c col straight_deltas Rook Queen Hwf Hin).
    exact straight_in_queen.
  - apply (line_attack_spec b r c col diagonal_deltas Bishop Queen Hwf Hin).
    exact diagonal_in_queen.
Qed.

Lemma sliding_attack_first_blocker_witness :
  wf king_board /\ inside 4 5 = true /\
  (attacked_on_straight king_board 4 5 BLACK = Ok true <->
   exists d k q, In d straight_deltas /\ 1 <= k /\
     inside (4 + k * fst d) (5 + k * snd d) = true /\
     open_line (grid king_board) 4 5 (fst d) (snd d) k /\
     cell (grid king_board) (4 + k * fst d) (5 + k * snd d) = Some q /\
     color q = BLACK /\ (kind q = Rook \/ kind q = Queen)) /\
  (attacked_on_diagonal king_board 4 5 BLACK = Ok true <->
   exists d k q, In d diagonal_deltas /\ 1 <= k /\
     inside (4 + k * fst d) (5 + k * snd d) = true /\
     open_line (grid king_board) 4 5 (fst d) (snd d) k /\
     cell (grid king_board) (4 + k * fst d) (5 + k * snd d) = Some q /\
     color q = BLACK /\ (kind q = Bishop \/ kind q = Queen)).
Proof.
  split; [prove_wf |]. split; [reflexivity |].
  apply (sliding_attack_first_blocker king_board 4 5 BLACK);
    [prove_wf | reflexivity].
Defined.

(** X10: the knight loop reports an attack exactly when a knight of the
    attacking colour stands a knight's jump away on the board, and the
    king loop exactly when a king of that colour stands on a neighbouring
    square of the board. *)
Theorem step_attacks_exact (b : Board) (r c : Z) (col : Color) :
  wf b ->
  (attacked_by_knight b r c col = Ok true <->
   exists pr pc,
     ((Z.abs (pr - r) = 1 /\ Z.abs (pc - c) = 2) \/
      (Z.abs (pr - r) = 2 /\ Z.abs (pc - c) = 1)) /\
     inside pr pc = true /\ cell (grid b) pr pc = Some (mkPiece col Knight)) /\
  (attacked_by_king b r c col = Ok true <->
   exists pr pc,
     adjacent r c pr pc /\
     inside pr pc = true /\ cell (grid b) pr pc = Some (mkPiece col King)).
Proof.
  intros Hwf. split.
  - rewrite (ok_true_iff _ _ (attacked_by_knight_spec b r c col Hwf)). split.
    + intros [d [Hd [Hi Hp]]]. exists (r + fst d), (c + snd d).
      split; [| split; [exact Hi | apply is_piece_iff, Hp]].
      simpl in Hd.
      repeat (destruct Hd as [<- | Hd]; [cbn [fst snd]; lia |]). destruct Hd.
    + intros [pr [pc [Hoff [Hi Hp]]]]. exists (pr - r, pc - c). cbn [fst snd].
      replace (r + (pr - r)) with pr by lia.
      replace (c + (pc - c)) with pc by lia.
      split; [| split; [exact Hi | apply is_piece_iff, Hp]].
      assert (Hcases :
        (pr - r = -2 /\ pc - c = -1) \/ (pr - r = -2 /\ pc - c = 1) \/
        (pr - r = -1 /\ pc - c = -2) \/ (pr - r = -1 /\ pc - c = 2) \/
        (pr - r = 1 /\ pc - c = -2) \/ (pr - r = 1 /\ pc - c = 2) \/
        (pr - r = 2 /\ pc - c = -1) \/ (pr - r = 2 /\ pc - c = 1)) by lia.
      simpl.
      repeat (destruct Hcases as [[-> ->] | Hcases]; [tauto |]).
      destruct Hcases as [-> ->]. tauto.
  - rewrite (ok_true_iff _ _ (attacked_by_king_spec b r c col Hwf)). split.
    + intros [dr [Hdr [dc [Hdc [Hne [Hi Hp]]]]]]. exists (r + dr), (c + dc).
      split; [| split; [exact Hi | apply is_piece_iff, Hp]].
      apply adjacent_offsets. exists dr. split; [exact Hdr |].
      exists dc. repeat split; assumption.
    + intros [pr [pc [Hadj [Hi Hp]]]]. apply adjacent_offsets in Hadj.
      destruct Hadj as [dr [Hdr [dc [Hdc [Hne [-> ->]]]]]].
      exists dr. split; [exact Hdr |]. exists dc. split; [exact Hdc |].
      split; [exact Hne |]. split; [exact Hi | apply is_piece_iff, Hp].
Qed.

Lemma step_attacks_exact_witness :
  wf king_board /\
  (attacked_by_knight king_board 3 4 BLACK = Ok true <->
   exists pr pc,
     ((Z.abs (pr - 3) = 1 /\ Z.abs (pc - 4) = 2) \/
      (Z.abs (pr - 3) = 2 /\ Z.abs (pc - 4) = 1)) /\
     inside pr pc = true /\
     cell (grid king_board) pr pc = Some (mkPiece BLACK Knight)) /\
  (attacked_by_king king_board 3 4 BLACK = Ok true <->
   exists pr pc,
     adjacent 3 4 pr pc /\
     inside pr pc = true /\
     cell (grid king_board) pr pc = Some (mkPiece BLACK King)).
Proof.
  split; [prove_wf |]. apply (step_attacks_exact king_board 3 4 BLACK). prove_wf.
Defined.


(* ================================================================= *)
(** * The game controller *)

Lemma legal_move_applies (b : Board) (col : Color) (legal : list Move) (m : Move) :
  wf b -> generate_legal_moves b col = Ok legal -> In m legal ->
  exists b',
    _make_move b (fst m) (snd m) = Ok b' /\ wf b' /\
    to_move b' = (if color_eqb (to_move b) WHITE then BLACK else WHITE) /\
    is_in_check b' col = Ok false.
Proof.
  intros Hwf El Hm.
  destruct (generate_legal_moves_spec b col Hwf) as [pseudo [legal' [Ep [El' Hl]]]].
  rewrite El in El'. injection El' as <-.
  apply Hl in Hm. destruct Hm as [Hp [b2 [E2 Hc]]].
  assert (Hb2 : wf b2 /\ to_move b2 = to_move b).
  { apply (returns_inv _ _ _ (generate_pseudo_legal_moves_spec b col Hwf) Ep) in Hp.
    destruct Hp as [r [c [q Hgen]]].
    destruct (generated_by_sound b col r c q m Hwf Hgen) as [Hsrc Hdst].
    destruct Hgen as [Hin _].
    destruct m as [[sr sc] [dr dc]]. cbn [fst snd] in *. injection Hsrc as -> ->.
    destruct (returns_inv _ _ _ (simulate_spec b r c dr dc Hwf Hin Hdst) E2)
      as [H1 [H2 _]].
    split; assumption. }
  destruct Hb2 as [Hwf2 Ht2].
  eexists. split; [apply make_move_simulate, E2 |].
  split; [exact Hwf2 |]. split; [cbn [to_move]; rewrite Ht2; reflexivity |].
  rewrite <- Hc. apply is_in_check_grid. reflexivity.
Qed.

Lemma square_eqb_eq (a b : Square) : square_eqb a b = true <-> a = b.
Proof.
  destruct a as [a1 a2], b as [b1 b2]. unfold square_eqb. cbn [fst snd].
  rewrite andb_true_iff, !Z.eqb_eq. split.
  - intros [-> ->]. reflexivity.
  - intros E. injection E as -> ->. split; reflexivity.
Qed.

Lemma in_dsts_from (legal : list Move) (src dst : Square) :
  In dst (dsts_from legal src) <-> In (src, dst) legal.
Proof.
  unfold dsts_from. rewrite in_map_iff. split.
  - intros [[s d] [Hd Hm]]. cbn [snd] in Hd. subst d.
    apply filter_In in Hm. destruct Hm as [Hm Hs].
    cbn [fst] in Hs. apply square_eqb_eq in Hs. subst s. exact Hm.
  - intros Hm. exists (src, dst). split; [reflexivity |].
    apply filter_In. split; [exact Hm |]. apply square_eqb_eq. reflexivity.
Qed.

Lemma generate_legal_moves_total (b : Board) (col : Color) :
  wf b -> exists legal, generate_legal_moves b col = Ok legal.
Proof.
  intros Hwf.
  destruct (generate_legal_moves_spec b col Hwf) as [_ [legal [_ [El _]]]].
  exists legal. exact El.
Qed.

(** The selection branch shared by both arms of [_handle_click]. *)
Lemma select_square_ok (g fallback : ChessGame) (r c : Z) :
  wf (board g) -> to_move (board g) = WHITE -> inside r c = true ->
  game_ok fallback -> board fallback = board g -> running fallback = running g ->
  exists g',
    (p <- grid_get (grid (board g)) r c ;;
     if is_white p then
       legal <- generate_legal_moves (board g) WHITE ;;
       Ok (mkGame (board g) (Some (r, c)) (dsts_from legal (r, c)) (running g))
     else Ok fallback) = Ok g' /\
    game_ok g' /\ board g' = board g /\ running g' = running g.
Proof.
  intros Hwf Hturn Hin Hfb Hfbb Hfbr.
  rewrite grid_get_inside by assumption. cbn [bind].
  destruct (is_white (cell (grid (board g)) r c)).
  - destruct (generate_legal_moves_total (board g) WHITE Hwf) as [legal El].
    rewrite El. cbn [bind]. eexists. split; [reflexivity |].
    split; [| split; reflexivity].
    split; [exact Hwf |]. unfold selection_ok. cbn [selected board legal_for_selected].
    split; [exact Hturn |]. exists legal. split; [exact El | reflexivity].
  - exists fallback. repeat split; try assumption; apply Hfb.
Qed.

Lemma handle_click_spec (g : ChessGame) (pos : Z * Z) :
  game_ok g ->
  exists g',
    _handle_click g pos = Ok g' /\
    game_ok g' /\ running g' = running g /\
    (board g' = board g \/
     exists src dst,
       selected g = Some src /\ selected g' = None /\
       played WHITE g g' src dst) /\
    (to_move (board g) <> WHITE \/
     ~ (0 <= fst pos < WIDTH /\ 0 <= snd pos < HEIGHT) -> g' = g).
Proof.
  intros [Hwf Hsel]. unfold _handle_click.
  destruct (color_eqb (to_move (board g)) WHITE) eqn:Hturn; cbn [negb].
  2:{ exists g. split; [reflexivity |]. split; [split; assumption |].
      split; [reflexivity |]. split; [left; reflexivity | reflexivity]. }
  apply color_eqb_eq in Hturn. cbv zeta.
  set (c := fst pos / SQUARE_SIZE). set (r := snd pos / SQUARE_SIZE).
  assert (Hwin : inside r c = true <->
                 (0 <= fst pos < WIDTH /\ 0 <= snd pos < HEIGHT)).
  { rewrite inside_iff. subst r c.
    change SQUARE_SIZE with 80. change WIDTH with 640. change HEIGHT with 640.
    pose proof (Z.div_mod (fst pos) 80 ltac:(lia)).
    pose proof (Z.mod_pos_bound (fst pos) 80 ltac:(lia)).
    pose proof (Z.div_mod (snd pos) 80 ltac:(lia)).
    pose proof (Z.mod_pos_bound (snd pos) 80 ltac:(lia)).
    split; intros Hb; lia. }
  fold (inside r c).
  destruct (inside r c) eqn:Hin; cbn [negb].
  2:{ exists g. split; [reflexivity |]. split; [split; assumption |].
      split; [reflexivity |]. split; [left; reflexivity | reflexivity]. }
  assert (Hguard : to_move (board g) <> WHITE \/
                   ~ (0 <= fst pos < WIDTH /\ 0 <= snd pos < HEIGHT) ->
                   forall g', g' = g).
  { intros [H | H]; [contradiction | exfalso; apply H, Hwin; reflexivity]. }
  destruct (selected g) as [sel |] eqn:Es.
  - destruct (existsb (square_eqb (r, c)) (legal_for_selected g)) eqn:Emem.
    + unfold selection_ok in Hsel. rewrite Es in Hsel.
      destruct Hsel as [_ [legal [El Hdst]]].
      apply existsb_exists in Emem. destruct Emem as [sq [Hsq Heq]].
      apply square_eqb_eq in Heq. subst sq.
      rewrite Hdst in Hsq. apply in_dsts_from in Hsq.
      destruct (legal_move_applies (board g) WHITE legal _ Hwf El Hsq)
        as [b' [Eb [Hwf' [Ht' Hc']]]].
      cbn [fst snd] in Eb. rewrite Eb. cbn [bind].
      eexists. split; [reflexivity |].
      split; [split; [exact Hwf' | reflexivity] |].
      split; [reflexivity |]. split; [| intros H; apply (Hguard H)].
      right. exists sel, (r, c). split; [reflexivity |]. split; [reflexivity |].
      unfold played. cbn [board]. split; [exact Hturn |].
      split; [exists legal; split; assumption |].
      split; [exact Eb |]. split; [| exact Hc'].
      rewrite Ht', Hturn. reflexivity.
    + destruct (select_square_ok g
                  (mkGame (board g) None [] (running g)) r c Hwf Hturn Hin)
        as [g' [E [Hok [Hb Hr]]]];
        [split; [exact Hwf | reflexivity] | reflexivity | reflexivity |].
      exists g'. split; [exact E |]. split; [exact Hok |].
      split; [exact Hr |]. split; [left; exact Hb |].
      intros H; apply (Hguard H).
  - destruct (select_square_ok g g r c Hwf Hturn Hin)
      as [g' [E [Hok [Hb Hr]]]];
      [split; assumption | reflexivity | reflexivity |].
    exists g'. split; [exact E |]. split; [exact Hok |].
    split; [exact Hr |]. split; [left; exact Hb |].
    intros H; apply (Hguard H).
Qed.

(** X11: a click never corrupts the game and can change the board only by a
    legal move of White: from a consistent state [_handle_click] ends
    normally in a consistent state; the board is either untouched or the
    result of [_make_move] for a move of [generate_legal_moves(WHITE)]
    from the selected square, after which the selection is cleared, it
    is Black's turn and White is not in check.  Clicks while it is not
    White's turn, and clicks outside the 640x640 window, change nothing. *)
Theorem handle_click_plays_legal (g : ChessGame) (pos : Z * Z) :
  game_ok g ->
  exists g',
    _handle_click g pos = Ok g' /\
    game_ok g' /\ running g' = running g /\
    (board g' = board g \/
     exists src dst,
       selected g = Some src /\ selected g' = None /\
       played WHITE g g' src dst) /\
    (to_move (board g) <> WHITE \/
     ~ (0 <= fst pos < WIDTH /\ 0 <= snd pos < HEIGHT) -> g' = g).
Proof.
  intros Hok.
  destruct (handle_click_spec g pos Hok) as [g' [E [Hok' [Hr [Hb Hg]]]]].
  exists g'. split; [exact E |]. split; [exact Hok' |].
  split; [exact Hr |]. split; assumption.
Qed.

Lemma handle_click_plays_legal_witness :
  game_ok fresh_game /\
  exists g',
    _handle_click fresh_game (330, 500) = Ok g' /\
    game_ok g' /\ running g' = running fresh_game /\
    (board g' = board fresh_game \/
     exists src dst,
       selected fresh_game = Some src /\ selected g' = None /\
       played WHITE fresh_game g' src dst) /\
    (to_move (board fresh_game) <> WHITE \/
     ~ (0 <= fst (330, 500) < WIDTH /\ 0 <= snd (330, 500) < HEIGHT) ->
     g' = fresh_game).
Proof.
  split; [split; [prove_wf | reflexivity] |].
  apply (handle_click_plays_legal fresh_game (330, 500)).
  split; [prove_wf | reflexivity].
Defined.

(** Two clicks play a move: on a fresh game, clicking the pawn on
    [(6, 4)] and then the square [(4, 4)] moves the pawn there and hands
    the turn to Black. *)
Example two_clicks_play_e4 :
  exists g1 g2,
    _handle_click fresh_game (330, 500) = Ok g1 /\
    selected g1 = Some (6, 4) /\
    legal_for_selected g1 = [(5, 4); (4, 4)] /\
    _handle_click g1 (330, 330) = Ok g2 /\
    cell (grid (board g2)) 4 4 = Some (mkPiece WHITE Pawn) /\
    cell (grid (board g2)) 6 4 = None /\
    to_move (board g2) = BLACK /\ selected g2 = None.
Proof.
  eexists. eexists. split; [vm_compute; reflexivity |].
  split; [reflexivity |]. split; [reflexivity |].
  split; [vm_compute; reflexivity |]. repeat split.
Qed.

(** ** The automatic opponent *)

Lemma choice_in {A : Type} (rnd : nat) (l : list A) :
  l <> [] -> exists a, choice rnd l = Ok a /\ In a l.
Proof.
  intros Hl. unfold choice.
  assert (Hlen : (length l <> 0)%nat) by (destruct l; [congruence | discriminate]).
  pose proof (Nat.mod_upper_bound rnd (length l) Hlen) as Hlt.
  destruct (nth_error l (rnd mod length l)) as [a |] eqn:E.
  - exists a. split; [reflexivity |]. eapply nth_error_In, E.
  - apply nth_error_None in E. lia.
Qed.

Lemma legal_moves_in_bounds (b : Board) (col : Color) (legal : list Move)
    (m : Move) :
  wf b -> generate_legal_moves b col = Ok legal -> In m legal ->
  inside (fst (snd m)) (snd (snd m)) = true.
Proof.
  intros Hwf El Hm.
  destruct (generate_legal_moves_spec b col Hwf) as [pseudo [legal' [Ep [El' Hl]]]].
  rewrite El in El'. injection El' as <-.
  apply Hl in Hm. destruct Hm as [Hp _].
  apply (returns_inv _ _ _ (generate_pseudo_legal_moves_spec b col Hwf) Ep) in Hp.
  destruct Hp as [r [c [q Hgen]]].
  apply (generated_by_sound b col r c q m Hwf Hgen).
Qed.

Lemma ai_move_spec (rnd : nat) (g : ChessGame) :
  wf (board g) ->
  exists g',
    _ai_move_if_needed rnd g = Ok g' /\
    wf (board g') /\
    selected g' = selected g /\
    legal_for_selected g' = legal_for_selected g /\
    running g' = running g /\
    (((to_move (board g) <> BLACK \/
       generate_legal_moves (board g) BLACK = Ok []) /\ g' = g) \/
     (exists src dst,
        played BLACK g g' src dst /\
        ((exists legal s d,
            generate_legal_moves (board g) BLACK = Ok legal /\
            In (s, d) legal /\
            cell (grid (board g)) (fst d) (snd d) <> None) ->
         cell (grid (board g)) (fst dst) (snd dst) <> None))).
Proof.
  intros Hwf. unfold _ai_move_if_needed.
  destruct (color_eqb (to_move (board g)) BLACK) eqn:Hturn; cbn [negb].
  2:{ apply color_eqb_neq in Hturn. exists g. split; [reflexivity |].
      split; [exact Hwf |]. repeat (split; [reflexivity |]).
      left. split; [left; exact Hturn | reflexivity]. }
  apply color_eqb_eq in Hturn.
  destruct (generate_legal_moves_total (board g) BLACK Hwf) as [legal El].
  rewrite El. cbn [bind].
  destruct legal as [| m0 legal0] eqn:Elegal.
  { exists g. split; [reflexivity |]. split; [exact Hwf |].
    repeat (split; [reflexivity |]).
    left. split; [right; reflexivity | reflexivity]. }
  rewrite <- Elegal in *.
  assert (Hcap : returns
            (collect (fun m =>
               t <- grid_get (grid (board g)) (fst (snd m)) (snd (snd m)) ;;
               if negb (is_none t) then Ok [m] else Ok []) legal)
            (fun caps => forall y, In y caps <->
               exists m, In m legal /\
                 (y = m /\
                  cell (grid (board g)) (fst (snd m)) (snd (snd m)) <> None))).
  { apply collect_returns. intros m Hm.
    rewrite grid_get_inside;
      [| exact Hwf | exact (legal_moves_in_bounds _ _ _ _ Hwf El Hm)].
    cbn [bind]. apply returns_one_or_none. intros y. cbv beta.
    unfold Square in *.
    destruct (cell (grid (board g)) (fst (snd m)) (snd (snd m))) eqn:Ec;
      cbn [is_none negb].
    - split; [intros [-> _]; split; reflexivity |].
      intros [_ ->]. split; [reflexivity | discriminate].
    - split; [intros [_ H]; congruence |].
      intros [H _]. discriminate. }
  destruct Hcap as [caps [Ecaps Hcaps]]. rewrite Ecaps. cbn [bind].
  set (pool := match caps with [] => legal | _ :: _ => caps end).
  assert (Hpool : pool <> [] /\
            (forall m, In m pool -> In m legal) /\
            ((exists m, In m legal /\
                cell (grid (board g)) (fst (snd m)) (snd (snd m)) <> None) ->
             forall m, In m pool ->
               cell (grid (board g)) (fst (snd m)) (snd (snd m)) <> None)).
  { subst pool. destruct caps as [| c0 caps0] eqn:Ec.
    - split; [rewrite Elegal; discriminate |]. split; [tauto |].
      intros [m [Hm Hocc]]. exfalso.
      apply (proj2 (Hcaps m)). exists m. repeat split; assumption.
    - split; [discriminate |]. split.
      + intros m Hm. apply Hcaps in Hm. destruct Hm as [m' [Hm' [-> _]]]. exact Hm'.
      + intros _ m Hm. apply Hcaps in Hm. destruct Hm as [m' [_ [-> H]]]. exact H. }
  destruct Hpool as [Hne [Hsub Hpref]].
  destruct (choice_in rnd pool Hne) as [mv [Emv Hmv]].
  rewrite Emv. cbn [bind].
  destruct (legal_move_applies (board g) BLACK legal mv Hwf El (Hsub mv Hmv))
    as [b' [Eb [Hwf' [Ht' Hc']]]].
  rewrite Eb. cbn [bind]. eexists. split; [reflexivity |].
  cbn [board selected legal_for_selected running].
  split; [exact Hwf' |]. repeat (split; [reflexivity |]).
  right. exists (fst mv), (snd mv). split.
  - unfold played. cbn [board]. split; [exact Hturn |]. split.
    + exists legal. split; [exact El |].
      destruct mv as [s d]. exact (Hsub _ Hmv).
    + split; [exact Eb |]. split; [| exact Hc'].
      rewrite Ht', Hturn. reflexivity.
  - intros [legal' [s [d [El' [Hsd Hocc]]]]]. injection El' as <-.
    apply Hpref; [| exact Hmv]. exists (s, d). split; assumption.
Qed.

(** X12: [_ai_move_if_needed] leaves the game alone unless it is Black's turn
    and Black has a legal move; otherwise it applies, by [_make_move],
    one move of [generate_legal_moves(BLACK)], after which it is White's
    turn and Black is not in check, and the move lands on an occupied
    square whenever some legal move does.  The selection and the running
    flag are never touched and the board stays 8x8. *)
Theorem ai_plays_legal_capture_first (rnd : nat) (g : ChessGame) :
  wf (board g) ->
  exists g',
    _ai_move_if_needed rnd g = Ok g' /\
    wf (board g') /\
    selected g' = selected g /\
    legal_for_selected g' = legal_for_selected g /\
    running g' = running g /\
    (((to_move (board g) <> BLACK \/
       generate_legal_moves (board g) BLACK = Ok []) /\ g' = g) \/
     (exists src dst,
        played BLACK g g' src dst /\
        ((exists legal s d,
            generate_legal_moves (board g) BLACK = Ok legal /\
            In (s, d) legal /\
            cell (grid (board g)) (fst d) (snd d) <> None) ->
         cell (grid (board g)) (fst dst) (snd dst) <> None))).
Proof.
  intros Hwf.
  destruct (ai_move_spec rnd g Hwf) as [g' [E [Hwf' [Hs [Hl [Hr Hcases]]]]]].
  exists g'. split; [exact E |]. split; [exact Hwf' |].
  split; [exact Hs |]. split; [exact Hl |]. split; [exact Hr | exact Hcases].
Qed.

Lemma ai_plays_legal_capture_first_witness :
  wf (board black_to_move_game) /\
  exists g',
    _ai_move_if_needed 7 black_to_move_game = Ok g' /\
    wf (board g') /\
    selected g' = selected black_to_move_game /\
    legal_for_selected g' = legal_for_selected black_to_move_game /\
    running g' = running black_to_move_game /\
    (((to_move (board black_to_move_game) <> BLACK \/
       generate_legal_moves (board black_to_move_game) BLACK = Ok []) /\
      g' = black_to_move_game) \/
     (exists src dst,
        played BLACK black_to_move_game g' src dst /\
        ((exists legal s d,
            generate_legal_moves (board black_to_move_game) BLACK = Ok legal /\
            In (s, d) legal /\
            cell (grid (board black_to_move_game)) (fst d) (snd d) <> None) ->
         cell (grid (board black_to_move_game)) (fst dst) (snd dst) <> None))).
Proof.
  split; [prove_wf |].
  apply (ai_plays_legal_capture_first 7 black_to_move_game). prove_wf.
Defined.

(** ** Events and the main loop *)

Lemma reset_ok (g : ChessGame) :
  exists g', reset g = Ok g' /\ game_ok g' /\ running g' = running g.
Proof.
  unfold reset. rewrite Board_init_start. cbn [bind].
  eexists. split; [reflexivity |]. split; [| reflexivity].
  split; [exact wf_start_board | reflexivity].
Qed.

Lemma game_ok_running (g : ChessGame) (flag : bool) :
  game_ok g ->
  game_ok (mkGame (board g) (selected g) (legal_for_selected g) flag).
Proof. intros H. exact H. Qed.

Lemma handle_events_spec (g : ChessGame) (events : list Event) :
  game_ok g ->
  exists g',
    _handle_events g events = Ok g' /\ game_ok g' /\
    running g' = running g && negb (existsb is_quit events).
Proof.
  unfold _handle_events. revert g.
  induction events as [| ev events IH]; intros g Hok.
  - exists g. split; [reflexivity |]. split; [exact Hok |].
    cbn [existsb negb]. rewrite andb_true_r. reflexivity.
  - cbn [for_state existsb].
    assert (Hstep : exists g1,
      match ev with
      | QUIT => Ok (mkGame (board g) (selected g) (legal_for_selected g) false)
      | KEYDOWN K_ESCAPE =>
          Ok (mkGame (board g) (selected g) (legal_for_selected g) false)
      | KEYDOWN K_r => reset g
      | KEYDOWN K_other => Ok g
      | MOUSEBUTTONDOWN button pos =>
          if button =? 1 then _handle_click g pos else Ok g
      | OTHER_EVENT => Ok g
      end = Ok g1 /\ game_ok g1 /\ running g1 = running g && negb (is_quit ev)).
    { destruct ev as [| [| |] | button pos |]; cbn [is_quit negb].
      - eexists. split; [reflexivity |].
        split; [apply game_ok_running, Hok |]. cbn [running].
        rewrite andb_false_r. reflexivity.
      - eexists. split; [reflexivity |].
        split; [apply game_ok_running, Hok |]. cbn [running].
        rewrite andb_false_r. reflexivity.
      - destruct (reset_ok g) as [g1 [E [H1 H2]]]. exists g1.
        split; [exact E |]. split; [exact H1 |]. rewrite andb_true_r. exact H2.
      - exists g. split; [reflexivity |]. split; [exact Hok |].
        rewrite andb_true_r. reflexivity.
      - destruct (button =? 1).
        + destruct (handle_click_spec g pos Hok) as [g1 [E [H1 [H2 _]]]].
          exists g1. split; [exact E |]. split; [exact H1 |].
          rewrite andb_true_r. exact H2.
        + exists g. split; [reflexivity |]. split; [exact Hok |].
          rewrite andb_true_r. reflexivity.
      - exists g. split; [reflexivity |]. split; [exact Hok |].
        rewrite andb_true_r. reflexivity. }
    destruct Hstep as [g1 [E1 [Hok1 Hr1]]]. rewrite E1. cbn [bind].
    destruct (IH g1 Hok1) as [g' [E' [Hok' Hr']]].
    exists g'. split; [exact E' |]. split; [exact Hok' |].
    rewrite Hr', Hr1. destruct (running g), (is_quit ev); reflexivity.
Qed.

Lemma ai_move_ok (rnd : nat) (g : ChessGame) :
  game_ok g ->
  exists g', _ai_move_if_needed rnd g = Ok g' /\ game_ok g' /\
             running g' = running g.
Proof.
  intros [Hwf Hsel].
  destruct (ai_move_spec rnd g Hwf) as [g' [E [Hwf' [Hs [Hl [Hr Hcases]]]]]].
  exists g'. split; [exact E |]. split; [| exact Hr].
  destruct Hcases as [[_ ->] | [src [dst [[Hturn _] _]]]].
  - split; assumption.
  - split; [exact Hwf' |]. unfold selection_ok in *. rewrite Hs, Hl.
    destruct (selected g) as [s |]; [| exact Hsel].
    destruct Hsel as [Hw _]. rewrite Hw in Hturn. discriminate.
Qed.

Lemma run_ok (frames : list (list Event * nat)) (g : ChessGame) :
  game_ok g -> exists g', run g frames = Ok g' /\ game_ok g'.
Proof.
  revert g. induction frames as [| [events rnd] frames IH]; intros g Hok.
  - exists g. split; [reflexivity | exact Hok].
  - cbn [run]. destruct (running g).
    + destruct (handle_events_spec g events Hok) as [g1 [E1 [Hok1 _]]].
      rewrite E1. cbn [bind].
      destruct (ai_move_ok rnd g1 Hok1) as [g2 [E2 [Hok2 _]]].
      rewrite E2. cbn [bind]. apply IH, Hok2.
    + exists g. split; [reflexivity | exact Hok].
Qed.

(** X13: from a consistent state, [_handle_events] processes any batch of
    events without error and stays consistent; the game keeps running
    exactly when it was running and the batch holds neither a QUIT event
    nor a press of Escape: clicks, resets and other keys never stop it,
    and nothing restarts it. *)
Theorem handle_events_stops_on_quit_only (g : ChessGame) (events : list Event) :
  game_ok g ->
  exists g',
    _handle_events g events = Ok g' /\ game_ok g' /\
    running g' = running g && negb (existsb is_quit events).
Proof.
  intros Hok. destruct (handle_events_spec g events Hok) as [g' [E [Hok' Hr]]].
  exists g'. split; [exact E |]. split; [exact Hok' | exact Hr].
Qed.

Lemma handle_events_stops_on_quit_only_witness :
  game_ok fresh_game /\
  exists g',
    _handle_events fresh_game
      [MOUSEBUTTONDOWN 1 (330, 500); KEYDOWN K_r; KEYDOWN K_ESCAPE] = Ok g' /\
    game_ok g' /\
    running g' =
      running fresh_game &&
      negb (existsb is_quit
              [MOUSEBUTTONDOWN 1 (330, 500); KEYDOWN K_r; KEYDOWN K_ESCAPE]).
Proof.
  split; [split; [prove_wf | reflexivity] |].
  apply (handle_events_stops_on_quit_only fresh_game).
  split; [prove_wf | reflexivity].
Defined.

(** X14: whatever the events and the random draws, the main loop started on a
    new game never fails (no index error in any move generation, click
    or automatic move) and every state it reaches has an 8x8 board and a
    selection that matches the board. *)
Theorem run_keeps_consistency (frames : list (list Event * nat)) :
  exists g0 g,
    ChessGame_init = Ok g0 /\ run g0 frames = Ok g /\ game_ok g.
Proof.
  assert (H0 : game_ok fresh_game) by (split; [exact wf_start_board | reflexivity]).
  destruct (run_ok frames fresh_game H0) as [g [E Hok]].
  exists fresh_game, g. split; [reflexivity |]. split; [exact E | exact Hok].
Qed.

(** ** A side without moves freezes the game *)

Lemma handle_events_frozen (g : ChessGame) (events : list Event) :
  to_move (board g) = BLACK ->
  (forall ev, In ev events -> ev <> KEYDOWN K_r) ->
  exists g',
    _handle_events g events = Ok g' /\ board g' = board g /\
    selected g' = selected g /\ legal_for_selected g' = legal_for_selected g.
Proof.
  unfold _handle_events. revert g.
  induction events as [| ev events IH]; intros g Hturn Hnr.
  - exists g. repeat split.
  - cbn [for_state].
    assert (Hstep : exists g1,
      match ev with
      | QUIT => Ok (mkGame (board g) (selected g) (legal_for_selected g) false)
      | KEYDOWN K_ESCAPE =>
          Ok (mkGame (board g) (selected g) (legal_for_selected g) false)
      | KEYDOWN K_r => reset g
      | KEYDOWN K_other => Ok g
      | MOUSEBUTTONDOWN button pos =>
          if button =? 1 then _handle_click g pos else Ok g
      | OTHER_EVENT => Ok g
      end = Ok g1 /\ board g1 = board g /\
      selected g1 = selected g /\ legal_for_selected g1 = legal_for_selected g).
    { destruct ev as [| [| |] | button pos |].
      - eexists. repeat split.
      - eexists. repeat split.
      - exfalso. apply (Hnr (KEYDOWN K_r)); [left |]; reflexivity.
      - exists g. repeat split.
      - destruct (button =? 1); [| exists g; repeat split].
        unfold _handle_click. rewrite Hturn. cbn [color_eqb negb].
        exists g. repeat split.
      - exists g. repeat split. }
    destruct Hstep as [g1 [E1 [Hb1 [Hs1 Hl1]]]]. rewrite E1. cbn [bind].
    destruct (IH g1) as [g' [E' [Hb' [Hs' Hl']]]].
    + rewrite Hb1. exact Hturn.
    + intros ev' Hev'. apply Hnr. right. exact Hev'.
    + exists g'. split; [exact E' |]. split; [congruence |]. split; congruence.
Qed.

(** X15: when it is Black's turn and Black has no legal move (mate or
    stalemate), an iteration of the main loop leaves the board as it is,
    whatever is clicked, unless the R key resets the game: the
    controller neither ends the game nor lets White move. *)
Theorem no_black_move_freezes_board (g : ChessGame) (events : list Event)
    (rnd : nat) :
  to_move (board g) = BLACK ->
  generate_legal_moves (board g) BLACK = Ok [] ->
  (forall ev, In ev events -> ev <> KEYDOWN K_r) ->
  exists g1 g2,
    _handle_events g events = Ok g1 /\
    _ai_move_if_needed rnd g1 = Ok g2 /\
    board g2 = board g /\ selected g2 = selected g.
Proof.
  intros Hturn Hnone Hnr.
  destruct (handle_events_frozen g events Hturn Hnr) as [g1 [E1 [Hb1 [Hs1 _]]]].
  exists g1, g1. split; [exact E1 |]. split; [| split; assumption].
  unfold _ai_move_if_needed. rewrite Hb1, Hturn. cbn [color_eqb negb].
  rewrite Hnone. reflexivity.
Qed.

Lemma no_black_move_freezes_board_witness :
  to_move (board stalemate_game) = BLACK /\
  generate_legal_moves (board stalemate_game) BLACK = Ok [] /\
  (forall ev, In ev [MOUSEBUTTONDOWN 1 (10, 10); OTHER_EVENT] ->
     ev <> KEYDOWN K_r) /\
  exists g1 g2,
    _handle_events stalemate_game [MOUSEBUTTONDOWN 1 (10, 10); OTHER_EVENT]
      = Ok g1 /\
    _ai_move_if_needed 3 g1 = Ok g2 /\
    board g2 = board stalemate_game /\ selected g2 = selected stalemate_game.
Proof.
  assert (Hnr : forall ev, In ev [MOUSEBUTTONDOWN 1 (10, 10); OTHER_EVENT] ->
                  ev <> KEYDOWN K_r).
  { intros ev [<- | [<- | []]]; discriminate. }
  split; [reflexivity |]. split; [reflexivity |]. split; [exact Hnr |].
  apply (no_black_move_freezes_board stalemate_game
           [MOUSEBUTTONDOWN 1 (10, 10); OTHER_EVENT] 3);
    [reflexivity | reflexivity | exact Hnr].
Defined.
